(** * Apache-Scraper: the progress ledger and the fetch client

    A shallow embedding of [src/utils/checkpointManager.ts] (the
    [CheckpointManager] class, called the Progress Ledger in the
    specification) and of [src/api/jiraClient.ts] (the [JiraApiClient]
    class, the Fetch Client), with the properties the specification
    states about them.

    Conventions of the embedding.
    - A JavaScript [number] that holds an index, a count, a status code or
      a duration in milliseconds is an integer of [Z]; the result of
      [parseInt], which may be NaN, is an [option Z].
    - The [projects] object of the checkpoint is a finite map from
      strings ([gmap string CheckpointState]): own properties only, so
      project keys are taken not to be names inherited from
      [Object.prototype]; the enumeration order of [Object.values] is the
      order of [map_to_list].
    - [new Date().toISOString()], [fs.writeFileSync] and [fetch] are the
      environment: the clock is a function from the number of readings
      made so far, the disk says for each write call whether it succeeds,
      and the server maps the number of requests made so far and the
      request to a reply.
    - [JSON.stringify] turns the typed checkpoint into a JSON document
      tree, which is what the file holds; [JSON.parse] followed by the
      (unchecked) cast of [load] reads such a tree back.  A document
      that is valid JSON but not of the shape of a [ScraperCheckpoint]
      has no typed value: there the embedding of the constructor is
      undefined ([None]).
    - The disk is the checkpoint directory and, when that exists, the
      file in it.  The constructor creates a missing directory; when
      [fs.mkdirSync] throws, no ledger is constructed, which is [None]
      as well (the two cases are told apart by the disk: a document is
      read only where the directory exists).
    - Left out: the console ([printStatus] only prints [getSummary]),
      and [getProject], which no property below is about.  The URL of a
      search is kept as its parameters.
    - Of the scraper ([JiraRestScraper]), [scrapeProject] is embedded
      from the point where [getProject] has returned; an issue, its
      transformation ([transformIssue]) and the project metadata are
      parameters. *)

From Stdlib Require Import ZArith String Ascii List Lia.
From stdpp Require Import gmap strings list fin_maps pretty.
From Equations Require Import Equations.

Open Scope Z_scope.

(** ** JSON documents *)

Module Json.

#[warnings="-register-all"]
Inductive json : Type :=
| JNull
| JBool (b : bool)
| JNum (n : Z)
| JStr (s : string)
| JArr (items : list json)
| JObj (fields : list (string * json)).

(** Member lookup in a parsed object: when a name occurs twice in the
    text, [JSON.parse] keeps the last value. *)
Fixpoint jget (k : string) (fields : list (string * json)) : option json :=
  match fields with
  | [] => None
  | (k', v) :: rest =>
      match jget k rest with
      | Some v' => Some v'
      | None => if String.eqb k k' then Some v else None
      end
  end.

End Json.

(** ** The progress ledger: [CheckpointManager] *)

Module Ledger.
Import Json.

(** [interface CheckpointState] *)
Record CheckpointState : Type := mkCheckpointState {
  projectKey : string;
  lastIssueKey : string;
  lastIssueIndex : Z;
  totalIssuesProcessed : Z;
  timestamp : string;
  completed : bool
}.

(** [interface ScraperCheckpoint] *)
Record ScraperCheckpoint : Type := mkScraperCheckpoint {
  projects : gmap string CheckpointState;
  startTime : string;
  lastUpdateTime : string
}.

Definition set_lastIssueKey (v : string) (r : CheckpointState) : CheckpointState :=
  mkCheckpointState (projectKey r) v (lastIssueIndex r)
    (totalIssuesProcessed r) (timestamp r) (completed r).

Definition set_lastIssueIndex (v : Z) (r : CheckpointState) : CheckpointState :=
  mkCheckpointState (projectKey r) (lastIssueKey r) v
    (totalIssuesProcessed r) (timestamp r) (completed r).

Definition incr_totalIssuesProcessed (r : CheckpointState) : CheckpointState :=
  mkCheckpointState (projectKey r) (lastIssueKey r) (lastIssueIndex r)
    (totalIssuesProcessed r + 1) (timestamp r) (completed r).

Definition set_timestamp (v : string) (r : CheckpointState) : CheckpointState :=
  mkCheckpointState (projectKey r) (lastIssueKey r) (lastIssueIndex r)
    (totalIssuesProcessed r) v (completed r).

Definition set_completed (v : bool) (r : CheckpointState) : CheckpointState :=
  mkCheckpointState (projectKey r) (lastIssueKey r) (lastIssueIndex r)
    (totalIssuesProcessed r) (timestamp r) v.

Definition set_projects (f : gmap string CheckpointState → gmap string CheckpointState)
    (c : ScraperCheckpoint) : ScraperCheckpoint :=
  mkScraperCheckpoint (f (projects c)) (startTime c) (lastUpdateTime c).

Definition set_lastUpdateTime (v : string) (c : ScraperCheckpoint) : ScraperCheckpoint :=
  mkScraperCheckpoint (projects c) (startTime c) v.

(** *** The document on disk *)

(** [JSON.stringify] of one record: the members in the order in which
    [initProject] creates them. *)
Definition stringify_state (r : CheckpointState) : json :=
  JObj [ ("projectKey", JStr (projectKey r));
         ("lastIssueKey", JStr (lastIssueKey r));
         ("lastIssueIndex", JNum (lastIssueIndex r));
         ("totalIssuesProcessed", JNum (totalIssuesProcessed r));
         ("timestamp", JStr (timestamp r));
         ("completed", JBool (completed r)) ]%string.

(** [JSON.stringify(this.checkpoint, null, 2)] *)
Definition stringify (c : ScraperCheckpoint) : json :=
  JObj [ ("projects",
           JObj ((λ kr : string * CheckpointState, (kr.1, stringify_state kr.2))
                   <$> map_to_list (projects c)));
         ("startTime", JStr (startTime c));
         ("lastUpdateTime", JStr (lastUpdateTime c)) ]%string.

(** [JSON.parse] read at the type [CheckpointState]. *)
Definition parse_state (j : json) : option CheckpointState :=
  match j with
  | JObj fs =>
      match jget "projectKey" fs, jget "lastIssueKey" fs,
            jget "lastIssueIndex" fs, jget "totalIssuesProcessed" fs,
            jget "timestamp" fs, jget "completed" fs with
      | Some (JStr pk), Some (JStr lk), Some (JNum li), Some (JNum tp),
        Some (JStr ts), Some (JBool cp) =>
          Some (mkCheckpointState pk lk li tp ts cp)
      | _, _, _, _, _, _ => None
      end
  | _ => None
  end.

(** The members of the [projects] object, assigned in text order (a
    later member of the same name replaces an earlier one). *)
Fixpoint parse_projects (acc : gmap string CheckpointState)
    (fields : list (string * json)) : option (gmap string CheckpointState) :=
  match fields with
  | [] => Some acc
  | (k, j) :: rest =>
      match parse_state j with
      | Some r => parse_projects (<[k := r]> acc) rest
      | None => None
      end
  end.

(** [JSON.parse(data)] read at the type [ScraperCheckpoint]. *)
Definition parse (j : json) : option ScraperCheckpoint :=
  match j with
  | JObj fs =>
      match jget "projects" fs, jget "startTime" fs, jget "lastUpdateTime" fs with
      | Some (JObj ps), Some (JStr st), Some (JStr lu) =>
          match parse_projects ∅ ps with
          | Some m => Some (mkScraperCheckpoint m st lu)
          | None => None
          end
      | _, _, _ => None
      end
  | _ => None
  end.

(** *** The environment: disk and clock *)

(** What [data/checkpoints/scraper_state.json] holds when it exists:
    text that cannot be read or parsed, or a JSON document. *)
Inductive FileContent : Type :=
| Unparsable
| Document (j : json).

(** The checkpoint directory [data/checkpoints]: it does not exist, and
    then [fs.mkdirSync] can create it or cannot; or it exists, with or
    without the file in it. *)
Inductive Disk : Type :=
| NoDirectory (creatable : bool)
| Directory (f : option FileContent).   (* [None]: the path does not exist *)

Record World : Type := mkWorld {
  disk : Disk;
  writes : nat;                (* calls of [fs.writeFileSync] so far *)
  dates : nat                  (* readings of the clock so far *)
}.

(** The file at [this.checkpointPath], if there is one. *)
Definition file (w : World) : option FileContent :=
  match disk w with
  | Directory f => f
  | NoDirectory _ => None
  end.

(** A ledger instance in its environment. *)
Record Sys : Type := mkSys {
  checkpoint : ScraperCheckpoint;   (* [this.checkpoint] *)
  world : World
}.

(** Methods are state transformers over [Sys]. *)
Definition M (A : Type) : Type := Sys → A * Sys.

#[export] Instance M_ret : MRet M := λ A (a : A) (s : Sys), (a, s).
#[export] Instance M_bind : MBind M :=
  λ A B (f : A → M B) (m : M A) (s : Sys), let (a, s') := m s in f a s'.

Definition gets {A : Type} (f : ScraperCheckpoint → A) : M A :=
  λ s, (f (checkpoint s), s).

Definition modify (f : ScraperCheckpoint → ScraperCheckpoint) : M unit :=
  λ s, (tt, mkSys (f (checkpoint s)) (world s)).

Definition exec {A : Type} (m : M A) (s : Sys) : Sys := (m s).2.
Definition eval {A : Type} (m : M A) (s : Sys) : A := (m s).1.

Section Platform.

(** [clock n]: what the [n]-th [new Date().toISOString()] returns. *)
Variable clock : nat → string.
(** [write_ok n]: whether the [n]-th [fs.writeFileSync] succeeds. *)
Variable write_ok : nat → bool.

Definition toISOString_now : M string :=
  λ s, let w := world s in
       (clock (dates w),
        mkSys (checkpoint s) (mkWorld (disk w) (writes w) (S (dates w)))).

(** [fs.writeFileSync(this.checkpointPath, text, 'utf-8')] inside the
    [try] of [save]: a failure is logged and leaves the disk as it
    was; after a success the file is there, in its directory. *)
Definition writeFileSync (j : json) : M unit :=
  λ s, let w := world s in
       (tt,
        mkSys (checkpoint s)
          (mkWorld (if write_ok (writes w) then Directory (Some (Document j)) else disk w)
                   (S (writes w)) (dates w))).

(** [fs.existsSync(checkpointDir)] *)
Definition existsSync_dir (w : World) : bool :=
  match disk w with
  | Directory _ => true
  | NoDirectory _ => false
  end.

(** [fs.mkdirSync(checkpointDir, { recursive: true })]: the new
    directory is empty; [None] when the call throws. *)
Definition mkdirSync (w : World) : option World :=
  match disk w with
  | NoDirectory true => Some (mkWorld (Directory None) (writes w) (dates w))
  | NoDirectory false => None
  | Directory _ => Some w
  end.

(** [private load()] *)
Definition load (w : World) : option (ScraperCheckpoint * World) :=
  match file w with
  | Some (Document j) =>
      match parse j with
      | Some c => Some (c, w)
      | None => None
      end
  | Some Unparsable | None =>
      Some (mkScraperCheckpoint ∅ (clock (dates w)) (clock (S (dates w))),
            mkWorld (disk w) (writes w) (S (S (dates w))))
  end.

(** [constructor]: the directory is created when it does not exist,
    outside any [try], so that a failure of [fs.mkdirSync] ends the
    construction; then [this.checkpoint = this.load()]. *)
Definition new_CheckpointManager (w : World) : option Sys :=
  match (if existsSync_dir w then Some w else mkdirSync w) with
  | Some w1 =>
      match load w1 with
      | Some (c, w') => Some (mkSys c w')
      | None => None
      end
  | None => None
  end.

(** [private save()] *)
Definition save : M unit :=
  t ← toISOString_now;
  modify (set_lastUpdateTime t);;
  c ← gets id;
  writeFileSync (stringify c).

(** [initProject(projectKey)] *)
Definition initProject (key : string) : M unit :=
  o ← gets (λ c, projects c !! key);
  match o with
  | Some _ => mret tt
  | None =>
      t ← toISOString_now;
      modify (set_projects (insert key (mkCheckpointState key "" (-1) 0 t false)));;
      save
  end.

(** [updateProgress(projectKey, issueKey, issueIndex)] *)
Definition updateProgress (key issueKey : string) (issueIndex : Z) : M unit :=
  o ← gets (λ c, projects c !! key);
  (match o with
   | Some _ => mret tt
   | None => initProject key
   end);;
  modify (set_projects (alter (set_lastIssueKey issueKey) key));;
  modify (set_projects (alter (set_lastIssueIndex issueIndex) key));;
  modify (set_projects (alter incr_totalIssuesProcessed key));;
  t ← toISOString_now;
  modify (set_projects (alter (set_timestamp t) key));;
  save.

(** [markProjectCompleted(projectKey)] *)
Definition markProjectCompleted (key : string) : M unit :=
  o ← gets (λ c, projects c !! key);
  match o with
  | Some _ =>
      modify (set_projects (alter (set_completed true) key));;
      save
  | None => mret tt
  end.

(** [getLastIndex(projectKey)] *)
Definition getLastIndex (key : string) : M Z :=
  gets (λ c, match projects c !! key with
             | Some r => lastIssueIndex r
             | None => -1
             end).

(** [isProjectCompleted(projectKey)] *)
Definition isProjectCompleted (key : string) : M bool :=
  gets (λ c, match projects c !! key with
             | Some r => completed r
             | None => false
             end).

(** [getProjectState(projectKey)] *)
Definition getProjectState (key : string) : M (option CheckpointState) :=
  gets (λ c, projects c !! key).

(** [getAllStates()] *)
Definition getAllStates : M ScraperCheckpoint := gets id.

(** [clear()] *)
Definition clear : M unit :=
  t1 ← toISOString_now;
  t2 ← toISOString_now;
  modify (λ _, mkScraperCheckpoint ∅ t1 t2);;
  save.

(** The value [getSummary()] returns. *)
Record Summary : Type := mkSummary {
  totalProjects : Z;
  completedProjects : Z;
  summaryIssuesProcessed : Z;
  summaryProjects : list (string * Z * bool)   (* key, progress, completed *)
}.

(** [getSummary()] *)
Definition getSummary : M Summary :=
  gets (λ c,
    let ps := (map_to_list (projects c)).*2 in
    mkSummary
      (Z.of_nat (length ps))
      (Z.of_nat (length (filter (λ p, completed p = true) ps)))
      (foldl (λ sum p, sum + totalIssuesProcessed p) 0 ps)
      ((λ p, (projectKey p, totalIssuesProcessed p, completed p)) <$> ps)).

(** The public operations as data, to run sequences of them. *)
Inductive Op : Type :=
| InitProject (key : string)
| UpdateProgress (key issueKey : string) (issueIndex : Z)
| MarkProjectCompleted (key : string)
| GetLastIndex (key : string)
| IsProjectCompleted (key : string)
| GetProjectState (key : string)
| GetAllStates
| Clear
| GetSummary.

Definition step (op : Op) : M unit :=
  match op with
  | InitProject k => initProject k
  | UpdateProgress k ik i => updateProgress k ik i
  | MarkProjectCompleted k => markProjectCompleted k
  | GetLastIndex k => getLastIndex k;; mret tt
  | IsProjectCompleted k => isProjectCompleted k;; mret tt
  | GetProjectState k => getProjectState k;; mret tt
  | GetAllStates => getAllStates;; mret tt
  | Clear => clear
  | GetSummary => getSummary;; mret tt
  end.

Fixpoint run (ops : list Op) (s : Sys) : Sys :=
  match ops with
  | [] => s
  | op :: rest => run rest (exec (step op) s)
  end.

End Platform.

(** The four assignments of [updateProgress], taken together. *)
Definition progressed (issueKey : string) (issueIndex : Z) (t : string)
    (r : CheckpointState) : CheckpointState :=
  mkCheckpointState (projectKey r) issueKey issueIndex
    (totalIssuesProcessed r + 1) t (completed r).

(** *** Notions used to state the properties *)

Definition is_clear (op : Op) : bool :=
  match op with Clear => true | _ => false end.

(** [updates key op]: [op] is a call of [updateProgress] on [key]. *)
Definition updates (key : string) (op : Op) : bool :=
  match op with
  | UpdateProgress k _ _ => bool_decide (k = key)
  | _ => false
  end.

(** The index passed by the last [updateProgress] call on [key] in
    [ops], or [d] when there is none. *)
Fixpoint last_supplied (key : string) (ops : list Op) (d : Z) : Z :=
  match ops with
  | [] => d
  | op :: rest =>
      last_supplied key rest
        (match op with
         | UpdateProgress k _ i => if bool_decide (k = key) then i else d
         | _ => d
         end)
  end.

(** The record of [key], as [getProjectState] returns it. *)
Definition record_of (key : string) (s : Sys) : option CheckpointState :=
  projects (checkpoint s) !! key.

(** The state of the ledger is what the file holds. *)
Definition persisted (s : Sys) : Prop :=
  file (world s) = Some (Document (stringify (checkpoint s))).

(** The latest [fs.writeFileSync], if it succeeded, stored the document
    as it is in memory now. *)
Definition wrote_back (write_ok : nat → bool) (s : Sys) : Prop :=
  if write_ok (Nat.pred (writes (world s))) then persisted s else True.

(** The invariant of the Collection Progress Record, as the
    specification words it, in two halves: [lastIndex] never decreases
    while the record is not completed, and a completed record is not
    changed by any operation other than [clear]. *)
Definition lastIndex_never_decreases : Prop :=
  ∀ (clock : nat → string) (write_ok : nat → bool) (key : string) (op : Op) (s : Sys),
    is_clear op = false →
    eval (isProjectCompleted key) s = false →
    eval (getLastIndex key) s ≤ eval (getLastIndex key) (exec (step clock write_ok op) s).

Definition completed_record_immutable : Prop :=
  ∀ (clock : nat → string) (write_ok : nat → bool) (key : string) (op : Op) (s : Sys)
    (r : CheckpointState),
    is_clear op = false →
    record_of key s = Some r → completed r = true →
    record_of key (exec (step clock write_ok op) s) = Some r.

(** A ledger that has just been constructed where no file exists. *)
Definition fresh_ledger (clock : nat → string) : Sys :=
  mkSys (mkScraperCheckpoint ∅ (clock 0%nat) (clock 1%nat))
    (mkWorld (Directory None) 0 2).

(** *** Sample inputs *)

Definition sample_clock : nat → string := λ _, "2025-01-01T00:00:00.000Z"%string.
Definition disk_ok : nat → bool := λ _, true.

(** Progress on ["X"] up to index 4, then completion. *)
Definition sample_completed : Sys :=
  run sample_clock disk_ok
    [UpdateProgress "X" "X-5" 4; MarkProjectCompleted "X"]
    (fresh_ledger sample_clock).

End Ledger.

(** ** The fetch client: [JiraApiClient] *)

Module Client.

(** *** Strings and numbers of the platform *)

(** [hay.includes(needle)] *)
Fixpoint includes (needle hay : string) : bool :=
  String.prefix needle hay
  || match hay with
     | EmptyString => false
     | String _ rest => includes needle rest
     end.

(** White space that [parseInt] skips (the ASCII part of it). *)
Definition is_white_space (c : ascii) : bool :=
  let n := nat_of_ascii c in
  ((9 <=? n) && (n <=? 13) || (n =? 32))%nat.

Fixpoint skip_white_space (s : string) : string :=
  match s with
  | String c rest => if is_white_space c then skip_white_space rest else s
  | EmptyString => s
  end.

Definition is_decimal_digit (c : ascii) : bool :=
  (48 <=? Z.of_nat (nat_of_ascii c)) && (Z.of_nat (nat_of_ascii c) <=? 57).

(** The value of [c] as a digit of the given radix (10 or 16). *)
Definition digit_value (radix : Z) (c : ascii) : option Z :=
  let n := Z.of_nat (nat_of_ascii c) in
  if is_decimal_digit c then Some (n - 48)
  else if (radix =? 16) && (97 <=? n) && (n <=? 102) then Some (n - 87)
  else if (radix =? 16) && (65 <=? n) && (n <=? 70) then Some (n - 55)
  else None.

(** The longest prefix of digits, read as a number; [acc] is [None]
    until a digit has been read. *)
Fixpoint read_digits (radix : Z) (acc : option Z) (s : string) : option Z :=
  match s with
  | EmptyString => acc
  | String c rest =>
      match digit_value radix c with
      | Some d => read_digits radix (Some (default 0 acc * radix + d)) rest
      | None => acc
      end
  end.

(** [parseInt(s)], with [None] for NaN: leading white space, an
    optional sign, an optional [0x] prefix, then digits; what follows
    the digits is ignored. *)
Definition parseInt (s : string) : option Z :=
  let s1 := skip_white_space s in
  let '(sign, s2) :=
    match s1 with
    | String c rest =>
        if Ascii.eqb c "-" then (-1, rest)
        else if Ascii.eqb c "+" then (1, rest)
        else (1, s1)
    | EmptyString => (1, s1)
    end in
  let '(radix, s3) :=
    match s2 with
    | String c (String x rest) =>
        if Ascii.eqb c "0" && (Ascii.eqb x "x" || Ascii.eqb x "X") then (16, rest)
        else (10, s2)
    | _ => (10, s2)
    end in
  Z.mul sign <$> read_digits radix None s3.

(** The [delay-seconds] form of a [Retry-After] header: a non-empty
    string of decimal digits, and the number of seconds it denotes. *)
Fixpoint decimal_value (acc : Z) (s : string) : option Z :=
  match s with
  | EmptyString => Some acc
  | String c rest =>
      if is_decimal_digit c then
        decimal_value (acc * 10 + (Z.of_nat (nat_of_ascii c) - 48)) rest
      else None
  end.

Definition delay_seconds (header : string) : option Z :=
  match header with
  | EmptyString => None
  | _ => decimal_value 0 header
  end.

(** *** Requests, responses and the server *)

Section Fetch.

(** [interface JiraIssue]: the client never looks inside an issue. *)
Variable JiraIssue : Type.

(** [interface JiraSearchResponse] *)
Record JiraSearchResponse : Type := mkSearchResponse {
  issues : list JiraIssue;
  startAt : Z;
  maxResults : Z;
  total : Z
}.

(** What the client reads of a [Response]. *)
Record Response : Type := mkResponse {
  status : Z;
  retryAfter : option string;          (* [headers.get('Retry-After')] *)
  text : string;                       (* [await response.text()] *)
  json : option JiraSearchResponse     (* [await response.json()]; [None]: it throws *)
}.

(** [response.ok] *)
Definition ok (r : Response) : bool := (200 <=? status r) && (status r <=? 299).

(** The URL of a request:
    [${baseUrl}/rest/api/2/search?jql=project=${projectKey} ORDER BY created DESC&startAt=..&maxResults=..&fields=..&expand=..] *)
Inductive Request : Type :=
| SearchRequest (projectKey : string) (startAt maxResults : Z).

(** [fetch(url, ...)] resolves with a response or rejects with an
    error, after some time. *)
Inductive Reply : Type :=
| Responds (r : Response)
| Throws (message : string).

Record Exchange : Type := mkExchange {
  took : Z;        (* milliseconds *)
  reply : Reply
}.

(** The server: what the [n]-th request made to it is answered. *)
Definition Server : Type := nat → Request → Exchange.

(** What can be observed of a run. *)
Inductive Event : Type :=
| Paced (ms : Z)                  (* the wait of [rateLimit] *)
| Fetched (url : Request)         (* a call of [fetch] *)
| Backoff (waitTime : option Z).  (* the wait before a retry or a failure *)

(** The client instance in its environment. *)
Record State : Type := mkState {
  requestCount : Z;       (* [this.requestCount] *)
  lastRequestTime : Z;    (* [this.lastRequestTime] *)
  now : Z;                (* [Date.now()] *)
  served : nat;           (* requests the server has received *)
  trace : list Event
}.

(** The fate of a promise. *)
Inductive Outcome (A : Type) : Type :=
| Resolved (a : A)
| Rejected (message : string).

Arguments Resolved {A} a.
Arguments Rejected {A} message.

Definition minDelay : Z := 1000.
Definition maxRetries : nat := 3.

(** The time a timer set for [ms] takes: values that are not numbers
    or are out of range count as 1. *)
Definition timer (ms : option Z) : Z :=
  match ms with
  | Some d => if (1 <=? d) && (d <=? 2147483647) then d else 1
  | None => 1
  end.

(** [await new Promise(resolve => setTimeout(resolve, ms))], recorded
    as the event [e]. *)
Definition sleep (e : Event) (ms : option Z) (st : State) : State :=
  mkState (requestCount st) (lastRequestTime st) (now st + timer ms)
    (served st) (trace st ++ [e]).

(** [private async rateLimit()] *)
Definition rateLimit (st : State) : State :=
  let timeSinceLastRequest := now st - lastRequestTime st in
  let st1 :=
    if timeSinceLastRequest <? minDelay then
      let delayNeeded := minDelay - timeSinceLastRequest in
      sleep (Paced delayNeeded) (Some delayNeeded) st
    else st in
  mkState (requestCount st1 + 1) (now st1) (now st1) (served st1) (trace st1).

Variable server : Server.

(** [await fetch(url, {...})] *)
Definition fetch (url : Request) (st : State) : Reply * State :=
  let ex := server (served st) url in
  (reply ex,
   mkState (requestCount st) (lastRequestTime st) (now st + took ex)
     (S (served st)) (trace st ++ [Fetched url])).

(** [Math.pow(2, retryCount) * 1000] *)
Definition exponential (retryCount : nat) : Z := 2 ^ Z.of_nat retryCount * 1000.

(** What one activation of [fetchWithRetry] ends in: the call of itself
    that it returns, or a promise that is settled. *)
Inductive Attempt : Type :=
| Again (st : State)
| Settled (o : Outcome Response) (st : State).

(** The [catch] block: an error raised inside the [try]. *)
Definition on_error (retryCount : nat) (message : string) (st : State) : Attempt :=
  if includes "fetch failed" message || includes "network" message then
    let waitTime := exponential retryCount in
    let st1 := sleep (Backoff (Some waitTime)) (Some waitTime) st in
    if (retryCount <? maxRetries)%nat then Again st1
    else Settled (Rejected message) st1
  else Settled (Rejected message) st.

(** The body of [fetchWithRetry(url, options, retryCount)]. *)
Definition attempt (url : Request) (retryCount : nat) (st : State) : Attempt :=
  let st1 := rateLimit st in
  let '(answer, st2) := fetch url st1 in
  match answer with
  | Throws message => on_error retryCount message st2
  | Responds response =>
      if status response =? 429 then
        let waitTime :=
          match retryAfter response with
          | Some (String c rest) => (λ n, n * 1000) <$> parseInt (String c rest)
          | Some EmptyString | None => Some (exponential retryCount)
          end in
        let st3 := sleep (Backoff waitTime) waitTime st2 in
        if (retryCount <? maxRetries)%nat then Again st3
        else
          on_error retryCount
            ("Rate limit exceeded after " ++ pretty maxRetries ++ " retries") st3
      else if (500 <=? status response) && (status response <? 600) then
        let waitTime := exponential retryCount in
        let st3 := sleep (Backoff (Some waitTime)) (Some waitTime) st2 in
        if (retryCount <? maxRetries)%nat then Again st3
        else
          on_error retryCount
            ("Server error " ++ pretty (status response) ++ " after "
               ++ pretty maxRetries ++ " retries") st3
      else if (400 <=? status response) && (status response <? 500) then
        on_error retryCount
          ("Client error " ++ pretty (status response) ++ ": " ++ text response) st2
      else Settled (Resolved response) st2
  end.

#[local] Unset Equations With Funext.

(** [private async fetchWithRetry(url, options = {}, retryCount = 0)]:
    the recursion ends because [retryCount] grows and an activation
    calls itself only while [retryCount < maxRetries]. *)
Equations? fetchWithRetry (url : Request) (retryCount : nat) (st : State)
    : Outcome Response * State by wf (maxRetries - retryCount)%nat lt :=
fetchWithRetry url retryCount st
    with Equations.Prop.Logic.inspect (attempt url retryCount st) := {
  | exist _ (Again st') H => fetchWithRetry url (S retryCount) st'
  | exist _ (Settled o st') _ => (o, st') }.
Proof.
  assert (retryCount < maxRetries)%nat; [|unfold maxRetries in *; lia].
  unfold attempt, on_error in H.
  destruct (Nat.ltb_spec retryCount maxRetries); [done|].
  destruct (fetch url (rateLimit st)) as [[r|m] st2];
    repeat (case_match; try discriminate).
Qed.

(** [async searchIssues(projectKey, startAt = 0, maxResults = 50)] *)
Definition searchIssues (projectKey : string) (startAt maxResults : Z) (st : State)
    : option JiraSearchResponse * State :=
  let url := SearchRequest projectKey startAt maxResults in
  match fetchWithRetry url 0 st with
  | (Resolved response, st') =>
      if ok response then (json response, st') else (None, st')
  | (Rejected _, st') => (None, st')
  end.

(** [allIssues.slice(0, limit)] *)
Definition slice0 (l : list JiraIssue) (limit : Z) : list JiraIssue :=
  if 0 <=? limit then take (Z.to_nat limit) l
  else take (Z.to_nat (Z.of_nat (length l) + limit)) l.

(** [limit && allIssues.length >= limit] *)
Definition reached (limit : option Z) (l : list JiraIssue) : bool :=
  match limit with
  | Some n => negb (n =? 0) && (n <=? Z.of_nat (length l))
  | None => false
  end.

(** The [while (hasMore)] loop of [getAllIssues], for at most [fuel]
    rounds; [None] says that the loop is still running then. *)
Fixpoint getAllIssues_loop (fuel : nat) (projectKey : string) (limit : option Z)
    (allIssues : list JiraIssue) (startAt : Z) (st : State)
    : option (list JiraIssue) * State :=
  match fuel with
  | O => (None, st)
  | S fuel' =>
      let maxResults := 50 in
      match searchIssues projectKey startAt maxResults st with
      | (None, st') => (Some allIssues, st')
      | (Some response, st') =>
          let allIssues' := allIssues ++ issues response in
          if reached limit allIssues' then
            (Some (slice0 allIssues' (default 0 limit)), st')
          else
            let hasMore := startAt + maxResults <? total response in
            let startAt' := startAt + maxResults in
            let hasMore' := if total response <=? startAt' then false else hasMore in
            if hasMore' then
              getAllIssues_loop fuel' projectKey limit allIssues' startAt' st'
            else (Some allIssues', st')
      end
  end.

(** [async getAllIssues(projectKey, limit = null)] *)
Definition getAllIssues (fuel : nat) (projectKey : string) (limit : option Z)
    (st : State) : option (list JiraIssue) * State :=
  getAllIssues_loop fuel projectKey limit [] 0 st.

(** The requests and the waits recorded in a trace. *)
Definition fetches (t : list Event) : list Request :=
  omap (λ e, match e with Fetched u => Some u | _ => None end) t.

Definition backoffs (t : list Event) : list (option Z) :=
  omap (λ e, match e with Backoff w => Some w | _ => None end) t.

End Fetch.

Arguments Resolved {A} a.
Arguments Rejected {A} message.
Arguments mkResponse {JiraIssue} status retryAfter text json.
Arguments mkSearchResponse {JiraIssue} issues startAt maxResults total.
Arguments Responds {JiraIssue} r.
Arguments Throws {JiraIssue} message.
Arguments mkExchange {JiraIssue} took reply.
Arguments reply {JiraIssue} e.
Arguments took {JiraIssue} e.
Arguments status {JiraIssue} r.
Arguments retryAfter {JiraIssue} r.
Arguments text {JiraIssue} r.
Arguments json {JiraIssue} r.
Arguments issues {JiraIssue} j.
Arguments total {JiraIssue} j.
Arguments ok {JiraIssue} r.
Arguments fetchWithRetry {JiraIssue} server url retryCount st.
Arguments attempt {JiraIssue} server url retryCount st.
Arguments on_error {JiraIssue} retryCount message st.
Arguments fetch {JiraIssue} server url st.
Arguments searchIssues {JiraIssue} server projectKey startAt maxResults st.
Arguments getAllIssues_loop {JiraIssue} server fuel projectKey limit allIssues startAt st.
Arguments getAllIssues {JiraIssue} server fuel projectKey limit st.
Arguments slice0 {JiraIssue} l limit.
Arguments reached {JiraIssue} limit l.
Arguments Again {JiraIssue} st.
Arguments Settled {JiraIssue} o st.

(** *** Notions used to state the properties *)

Section Claims.

Context {JiraIssue : Type}.

(** The wait the specification names for a 429 answer to attempt
    number [k]: the delay of the [Retry-After] header, in seconds, when
    there is one, and [2^k] seconds otherwise. *)
Definition wait_429 (k : nat) (r : Response JiraIssue) : option Z :=
  match retryAfter r with
  | Some header => (λ n, n * 1000) <$> delay_seconds header
  | None => Some (2 ^ Z.of_nat k * 1000)
  end.

(** A [Retry-After] header, when present, is a number of seconds for
    which a timer can be set: a timer takes [2^31 - 1] ms at most, which
    is 2147483 s (24 days and 20 hours). *)
Definition retry_after_fits_timer (r : Response JiraIssue) : Prop :=
  match retryAfter r with
  | Some header => ∃ n : Z, delay_seconds header = Some n ∧ n * 1000 ≤ 2147483647
  | None => True
  end.

Definition is_5xx (r : Response JiraIssue) : Prop := 500 ≤ status r < 600.

(** A 4xx status other than 429. *)
Definition is_client_error (r : Response JiraIssue) : Prop :=
  400 ≤ status r < 500 ∧ status r ≠ 429.

(** From its [n]-th request on, the server answers the requests for
    [url] with [rs], in this order. *)
Fixpoint answers (server : Server JiraIssue) (n : nat) (url : Request)
    (rs : list (Response JiraIssue)) : Prop :=
  match rs with
  | [] => True
  | r :: rest => reply (server n url) = Responds r ∧ answers server (S n) url rest
  end.

(** From [st] to [st'] the client has sent the requests [urls] and has
    waited [waits] before retries or failures, and nothing else of
    either kind. *)
Definition between (st st' : State) (urls : list Request)
    (waits : list (option Z)) : Prop :=
  served st' = (served st + length urls)%nat
  ∧ fetches (trace st') = fetches (trace st) ++ urls
  ∧ backoffs (trace st') = backoffs (trace st) ++ waits.

(** The run of the client in time.  [requested server url st st']:
    from [st] the client has sent the request for [url] once, after the
    pauses [pace] of its pacing, at the time that [rateLimit] notes as
    [lastRequestTime]; it is in [st'] when the reaction of the server
    has arrived, [took] ms later. *)
Definition requested (server : Server JiraIssue) (url : Request) (st st' : State)
    : Prop :=
  ∃ pace : list Z,
    trace st' = trace st ++ (Paced <$> pace) ++ [Fetched url]
    ∧ served st' = S (served st)
    ∧ requestCount st' = requestCount st + 1
    ∧ now st ≤ lastRequestTime st'
    ∧ now st' = lastRequestTime st' + took (server (served st) url).

(** [waited w st st']: from [st] the client has set a timer for a
    number [w] of milliseconds and done nothing else; it is in [st']
    when the timer has run out, that many milliseconds later (a timer
    takes 1 ms at least). *)
Definition waited (w : option Z) (st st' : State) : Prop :=
  ∃ d : Z,
    w = Some d
    ∧ trace st' = trace st ++ [Backoff w]
    ∧ now st' = now st + Z.max 1 d
    ∧ served st' = served st
    ∧ requestCount st' = requestCount st
    ∧ lastRequestTime st' = lastRequestTime st.

(** One round: the request, and behind the reaction to it the wait. *)
Definition round (server : Server JiraIssue) (url : Request) (w : option Z)
    (st st' : State) : Prop :=
  ∃ st1 : State, requested server url st st1 ∧ waited w st1 st'.

(** Rounds with the waits [ws], one after the other. *)
Fixpoint rounds (server : Server JiraIssue) (url : Request) (ws : list (option Z))
    (st st' : State) : Prop :=
  match ws with
  | [] => st' = st
  | w :: rest =>
      ∃ st1 : State, round server url w st st1 ∧ rounds server url rest st1 st'
  end.



(** The marks by which the [catch] block takes an error for a failure
    of the network. *)
Definition network_marked (message : string) : bool :=
  includes "fetch failed" message || includes "network" message.

(** [no_match_at needle t]: [needle] and [t] differ at a position that
    both have, so that [needle] starts no extension of [t]. *)
Fixpoint no_match_at (needle t : string) : bool :=
  match needle, t with
  | String a needle', String b t' =>
      negb (Ascii.eqb a b) || no_match_at needle' t'
  | _, _ => false
  end.

(** [never_starts_in needle p]: no occurrence of [needle] in a string
    [p ++ b] starts inside [p]. *)
Fixpoint never_starts_in (needle p : string) : bool :=
  match p with
  | EmptyString => true
  | String _ rest => no_match_at needle p && never_starts_in needle rest
  end.

(** A server that holds the collection [all] and answers every search
    with the page asked for and the size of the collection. *)
Definition paged_server (all : list JiraIssue) : Server JiraIssue :=
  λ _ url,
    match url with
    | SearchRequest _ startAt maxResults =>
        mkExchange 300
          (Responds
             (mkResponse 200 None ""
                (Some (mkSearchResponse
                         (take (Z.to_nat maxResults) (drop (Z.to_nat startAt) all))
                         startAt maxResults (Z.of_nat (length all))))))
    end.

(** The same server, except that every request for a page at or beyond
    [broken] is answered by [failure]. *)
Definition failing_from (broken : Z) (failure : Response JiraIssue)
    (all : list JiraIssue) : Server JiraIssue :=
  λ n url,
    match url with
    | SearchRequest _ startAt _ =>
        if broken <=? startAt then mkExchange 300 (Responds failure)
        else paged_server all n url
    end.

(** A server that gives the same answer to every request. *)
Definition always (r : Response JiraIssue) : Server JiraIssue :=
  λ _ _, mkExchange 300 (Responds r).


(** The number of pages of 50 that a collection of [n] items takes;
    an empty collection takes one request as well. *)
Definition pages (n : nat) : nat := S ((n - 1) / 50).

(** The page requests for the offsets [0, 50, ..., 50 * (n - 1)]. *)
Definition page_requests (projectKey : string) (n : nat) : list Request :=
  (λ i : nat, SearchRequest projectKey (50 * Z.of_nat i) 50) <$> seq 0 n.

End Claims.

(** A client that has made no request yet, at some time of day. *)
Definition new_client : State := mkState 0 0 1735689600000 0 [].

(** *** Sample inputs *)

Definition sample_url : Request := SearchRequest "KAFKA" 0 50.


(** 429 with [Retry-After: 2], 429 without the header, and 503 with a
    [Retry-After] header. *)
Definition limited_with_hint : Response nat := mkResponse 429 (Some "2"%string) "" None.
Definition limited : Response nat := mkResponse 429 None "" None.
Definition unavailable : Response nat := mkResponse 503 (Some "120"%string) "" None.


Definition not_found : Response nat := mkResponse 404 None "not found" None.

(** A collection of 137 issues. *)
Definition issues_137 : list nat := seq 0 137.

End Client.

(** ** The scraper: [scrapeProject] of [JiraRestScraper] *)

Module Scraper.
Import Ledger Client.

Definition MAX_ISSUES_PER_PROJECT : option Z := Some 100.
Definition ENABLE_CHECKPOINTING : bool := true.

Section ScrapeProject.

(** The raw issue, the transformed issue and the project metadata are
    not looked into here. *)
Context {JiraIssue IssueData ProjectInfo : Type}.

(** [issue.key] *)
Variable key_of : JiraIssue → string.
(** The [try] block up to the [push]: the log line and
    [this.transformIssue(issue)]; [None] when it throws. *)
Variable transformIssue : JiraIssue → option IssueData.

Variable clock : nat → string.
Variable write_ok : nat → bool.
Variable server : Server JiraIssue.

(** [issues.slice(start)] *)
Definition slice_from (l : list JiraIssue) (start : Z) : list JiraIssue :=
  if 0 <=? start then drop (Z.to_nat start) l
  else drop (Z.to_nat (Z.of_nat (length l) + start)) l.

(** The [for] loop over [issuesToProcess], from position [i] on, with
    [transformed] collected so far. *)
Fixpoint transform_loop (projectKey : string) (lastIndex i : Z)
    (issuesToProcess : list JiraIssue) (transformed : list IssueData)
    : M (list IssueData) :=
  match issuesToProcess with
  | [] => mret transformed
  | issue :: rest =>
      let globalIndex := lastIndex + 1 + i in
      match transformIssue issue with
      | Some transformedIssue =>
          (if ENABLE_CHECKPOINTING && ((i + 1) `mod` 10 =? 0) then
             updateProgress clock write_ok projectKey (key_of issue) globalIndex
           else mret tt);;
          transform_loop projectKey lastIndex (i + 1) rest
            (transformed ++ [transformedIssue])
      | None => transform_loop projectKey lastIndex (i + 1) rest transformed
      end
  end.

(** What [scrapeProject] returns: [null], or the project data (the
    metadata and the transformed issues); [StillFetching] says that
    [getAllIssues] has not returned within the fuel. *)
Inductive Scraped : Type :=
| StillFetching
| NoData
| ProjectData (info : ProjectInfo) (issues : list IssueData).

(** [private async scrapeProject(projectKey)], given what
    [await this.client.getProject(projectKey)] has returned and the
    client as that call has left it. *)
Definition scrapeProject (fuel : nat) (projectInfo : option ProjectInfo)
    (projectKey : string) (s : Sys) (st : State) : Scraped * Sys * State :=
  match projectInfo with
  | None => (NoData, s, st)
  | Some info =>
      let s1 :=
        if ENABLE_CHECKPOINTING then exec (initProject clock write_ok projectKey) s
        else s in
      let lastIndex :=
        if ENABLE_CHECKPOINTING then eval (getLastIndex projectKey) s1 else -1 in
      match getAllIssues server fuel projectKey MAX_ISSUES_PER_PROJECT st with
      | (None, st') => (StillFetching, s1, st')
      | (Some issues, st') =>
          if (length issues =? 0)%nat then (NoData, s1, st')
          else
            let issuesToProcess := slice_from issues (lastIndex + 1) in
            let '(transformedIssues, s2) :=
              transform_loop projectKey lastIndex 0 issuesToProcess [] s1 in
            (ProjectData info transformedIssues, s2, st')
      end
  end.

(** *** Notions used to state the properties *)

(** The calls of [updateProgress] that the loop makes. *)
Fixpoint checkpoint_ops (projectKey : string) (lastIndex i : Z)
    (issuesToProcess : list JiraIssue) : list Op :=
  match issuesToProcess with
  | [] => []
  | issue :: rest =>
      match transformIssue issue with
      | Some _ =>
          if (i + 1) `mod` 10 =? 0 then
            UpdateProgress projectKey (key_of issue) (lastIndex + 1 + i)
              :: checkpoint_ops projectKey lastIndex (i + 1) rest
          else checkpoint_ops projectKey lastIndex (i + 1) rest
      | None => checkpoint_ops projectKey lastIndex (i + 1) rest
      end
  end.

End ScrapeProject.

End Scraper.

(** ** Further notions about the ledger *)

Module LedgerNotions.
Import Json Ledger.

(** The collection an operation works on; the queries and [clear]
    name none. *)
Definition target (op : Op) : option string :=
  match op with
  | InitProject k | UpdateProgress k _ _ | MarkProjectCompleted k => Some k
  | _ => None
  end.

(** The number of [updateProgress] calls on [key] in [ops]. *)
Fixpoint count_updates (key : string) (ops : list Op) : Z :=
  match ops with
  | [] => 0
  | op :: rest => (if updates key op then 1 else 0) + count_updates key rest
  end.

(** The processed count of [key]; a collection without a record has
    processed nothing. *)
Definition processed_of (key : string) (s : Sys) : Z :=
  match record_of key s with
  | Some r => totalIssuesProcessed r
  | None => 0
  end.

(** Every record is stored under the name it carries. *)
Definition keys_agree (s : Sys) : Prop :=
  ∀ (k : string) (r : CheckpointState), record_of k s = Some r → projectKey r = k.

(** What a ledger constructed now, on the disk as this ledger leaves
    it, starts with. *)
Definition after_restart (clock : nat → string) (s : Sys) : option Sys :=
  new_CheckpointManager clock (world s).

(** On the world [w] the constructor gives a ledger that is empty, has
    written nothing, and finds itself on the disk [d]. *)
Definition starts_empty (clock : nat → string) (w : World) (d : Disk) : Prop :=
  ∃ s : Sys,
    new_CheckpointManager clock w = Some s
    ∧ disk (world s) = d ∧ writes (world s) = writes w
    ∧ checkpoint s = mkScraperCheckpoint ∅ (clock (dates w)) (clock (S (dates w)))
    ∧ ∀ key : string,
        record_of key s = None
        ∧ eval (getLastIndex key) s = -1
        ∧ eval (isProjectCompleted key) s = false.

End LedgerNotions.

(** ** Further notions about the fetch client *)

Module ClientNotions.
Import Client.

(** [getStats()]: the request count and the average delay. *)
Definition getStats (st : State) : Z * Z := (requestCount st, minDelay).

Section Replies.

Context {JiraIssue : Type}.

(** From its [n]-th request on, the server reacts to the requests for
    [url] with [xs], in this order (answers or failures of [fetch]). *)
Fixpoint reacts (server : Server JiraIssue) (n : nat) (url : Request)
    (xs : list (Reply JiraIssue)) : Prop :=
  match xs with
  | [] => True
  | x :: rest => reply (server n url) = x ∧ reacts server (S n) url rest
  end.

(** The reactions after which the client tries again: 429 (whose
    [Retry-After], if any, is a number of seconds for which a timer can
    be set), 5xx, and a failure of [fetch] whose message bears a mark of
    the network. *)
Definition retried (x : Reply JiraIssue) : Prop :=
  match x with
  | Responds r => (status r = 429 ∧ retry_after_fits_timer r) ∨ is_5xx r
  | Throws message => network_marked message = true
  end.

(** The wait after such a reaction to attempt number [k]. *)
Definition retry_wait (k : nat) (x : Reply JiraIssue) : option Z :=
  match x with
  | Responds r =>
      if status r =? 429 then wait_429 k r else Some (2 ^ Z.of_nat k * 1000)
  | Throws _ => Some (2 ^ Z.of_nat k * 1000)
  end.

(** The error the client ends with when such a reaction comes to the
    last attempt. *)
Definition exhausted_by (x : Reply JiraIssue) : string :=
  match x with
  | Responds r =>
      if status r =? 429 then "Rate limit exceeded after 3 retries"
      else "Server error " ++ pretty (status r) ++ " after 3 retries"
  | Throws message => message
  end.

(** The server never reports a total above [bound]. *)
Definition totals_at_most (server : Server JiraIssue) (bound : Z) : Prop :=
  ∀ (n : nat) (url : Request) (r : Response JiraIssue) (j : JiraSearchResponse JiraIssue),
    reply (server n url) = Responds r → json r = Some j → total j ≤ bound.

(** What one activation of [fetchWithRetry] that ends in [a] has done:
    one request, at most one wait, one more on the request count; it
    calls itself only while [retryCount < maxRetries], and it returns a
    response only if the server gave it and its status is outside
    400-599. *)
Definition one_request (server : Server JiraIssue) (url : Request)
    (retryCount : nat) (st : State) (a : Attempt JiraIssue) : Prop :=
  ∃ (st' : State) (ws : list (option Z)),
    between st st' [url] ws ∧ (length ws ≤ 1)%nat
    ∧ requestCount st' = requestCount st + 1
    ∧ ((a = Again st' ∧ (retryCount < maxRetries)%nat)
       ∨ ∃ o, a = Settled o st'
              ∧ ∀ r, o = Resolved r →
                     reply (server (served st) url) = Responds r
                     ∧ (status r < 400 ∨ 600 ≤ status r)).

(** The requests of a run of [getAllIssues] that asks [ns !! 0] times
    for the page at offset [50 * i], [ns !! 1] times for the next page,
    and so on. *)
Fixpoint page_runs (key : string) (i : nat) (ns : list nat) : list Request :=
  match ns with
  | [] => []
  | n :: rest =>
      replicate n (SearchRequest key (50 * Z.of_nat i) 50) ++ page_runs key (S i) rest
  end.

(** A server on which [fetch] always fails with the same message. *)
Definition unreachable (message : string) : Server JiraIssue :=
  λ _ _, mkExchange 300 (Throws message).

End Replies.

End ClientNotions.

(** ** More sample inputs *)

Module Samples.
Import Ledger Client Scraper LedgerNotions ClientNotions.

(** A server that reacts to its [n]-th request with the [n]-th element
    of [xs], and with [x] once these are used up. *)
Definition replaying (xs : list (Reply nat)) (x : Reply nat) : Server nat :=
  λ n _, mkExchange 300 (nth n xs x).

(** A first page of three issues out of three. *)
Definition small_page : Response nat :=
  mkResponse 200 None "" (Some (mkSearchResponse [1; 2; 3]%nat 0 50 3)).

(** 429 with a [Retry-After] in the date form. *)
Definition limited_until_date : Response nat :=
  mkResponse 429 (Some "Wed, 21 Oct 2015 07:28:00 GMT"%string) "" None.

(** A rate limit, a failure of the connection, a server error and
    another failure of the connection. *)
Definition mixed_failures : list (Reply nat) :=
  [Responds limited; Throws "fetch failed"; Responds unavailable;
   Throws "network is down"]%string.

Definition two_failures : list (Reply nat) :=
  [Responds limited_with_hint; Throws "fetch failed"]%string.

(** Three operations on ["Y"] and ["Z"] and a query. *)
Definition ops_elsewhere : list Op :=
  [UpdateProgress "Y" "Y-1" 0; InitProject "Z"; MarkProjectCompleted "Y";
   GetSummary]%string.

Definition ops_with_two_updates : list Op :=
  [UpdateProgress "X" "X-6" 5; UpdateProgress "Y" "Y-1" 0; InitProject "X";
   UpdateProgress "X" "X-7" 6]%string.

(** Twenty issues, numbered from 0, of which the ledger has recorded
    the first ten. *)
Definition twenty_issues : list nat := seq 0 20.

Definition issue_key (n : nat) : string := "KAFKA-" +:+ pretty n.

Definition transform_all (n : nat) : option nat := Some n.

Definition recorded_up_to_9 : Sys :=
  run sample_clock disk_ok [UpdateProgress "KAFKA" "KAFKA-9" 9]
    (fresh_ledger sample_clock).

End Samples.

(** * Properties of the ledger *)

Module LedgerFacts.
Import Json Ledger.

(** ** The document survives [JSON.stringify] and [JSON.parse] *)

Lemma parse_stringify_state (r : CheckpointState) :
  parse_state (stringify_state r) = Some r.
Proof. by destruct r. Qed.

Lemma parse_projects_stringified (l : list (string * CheckpointState))
    (acc : gmap string CheckpointState) :
  parse_projects acc ((λ kr, (kr.1, stringify_state kr.2)) <$> l)
  = Some (foldl (λ a kr, <[kr.1 := kr.2]> a) acc l).
Proof.
  revert acc. induction l as [|[k r] l IH]; intros acc; [done|].
  cbn [fmap list_fmap parse_projects fst snd foldl].
  rewrite parse_stringify_state. apply IH.
Qed.

Lemma foldl_insert_list_to_map (l : list (string * CheckpointState))
    (acc : gmap string CheckpointState) :
  NoDup l.*1 →
  foldl (λ a kr, <[kr.1 := kr.2]> a) acc l = list_to_map l ∪ acc.
Proof.
  revert acc. induction l as [|[k r] l IH]; intros acc Hnd.
  - simpl. by rewrite (left_id_L ∅ (∪)).
  - rewrite fmap_cons in Hnd. apply NoDup_cons in Hnd as [Hk Hnd].
    cbn [foldl fst snd list_to_map foldr] in *.
    rewrite IH by done.
    rewrite <- insert_union_l.
    symmetry. apply insert_union_r. by apply not_elem_of_list_to_map_1.
Qed.

Lemma parse_stringify (c : ScraperCheckpoint) : parse (stringify c) = Some c.
Proof.
  destruct c as [m st lu]. unfold parse, stringify. cbn [jget String.eqb Ascii.eqb Bool.eqb projects startTime lastUpdateTime].
  rewrite parse_projects_stringified.
  rewrite foldl_insert_list_to_map by apply NoDup_fst_map_to_list.
  by rewrite list_to_map_to_list, (right_id_L ∅ (∪)).
Qed.

(** ** What each operation does to the document *)

Section Operations.

Variable clock : nat → string.
Variable write_ok : nat → bool.

#[local] Abbreviation save := (save clock write_ok).
#[local] Abbreviation initProject := (initProject clock write_ok).
#[local] Abbreviation updateProgress := (updateProgress clock write_ok).
#[local] Abbreviation markProjectCompleted := (markProjectCompleted clock write_ok).
#[local] Abbreviation clear := (clear clock write_ok).
#[local] Abbreviation step := (step clock write_ok).
#[local] Abbreviation run := (run clock write_ok).

Ltac unfold_ops :=
  unfold exec, eval, Ledger.save, Ledger.initProject, Ledger.updateProgress,
    Ledger.markProjectCompleted, Ledger.clear, getLastIndex, isProjectCompleted,
    getProjectState, getAllStates, getSummary, toISOString_now, writeFileSync,
    gets, modify, mbind, mret, M_bind, M_ret in *.

Lemma save_exec (s : Sys) :
  exec save s =
  let c := set_lastUpdateTime (clock (dates (world s))) (checkpoint s) in
  mkSys c
    (mkWorld
       (if write_ok (writes (world s)) then Directory (Some (Document (stringify c)))
        else disk (world s))
       (S (writes (world s))) (S (dates (world s)))).
Proof. by unfold_ops. Qed.

Lemma initProject_exec (key : string) (s : Sys) :
  exec (initProject key) s =
  match projects (checkpoint s) !! key with
  | Some _ => s
  | None =>
      exec save
        (mkSys
           (set_projects
              (insert key (mkCheckpointState key "" (-1) 0 (clock (dates (world s))) false))
              (checkpoint s))
           (mkWorld (disk (world s)) (writes (world s)) (S (dates (world s)))))
  end.
Proof.
  unfold_ops. cbn. destruct (projects (checkpoint s) !! key); [|done].
  by destruct s.
Qed.

Lemma save_projects (s : Sys) :
  projects (checkpoint (exec save s)) = projects (checkpoint s).
Proof. by rewrite save_exec. Qed.

Lemma initProject_projects (key : string) (s : Sys) :
  projects (checkpoint (exec (initProject key) s)) =
  match projects (checkpoint s) !! key with
  | Some _ => projects (checkpoint s)
  | None =>
      <[key := mkCheckpointState key "" (-1) 0 (clock (dates (world s))) false]>
        (projects (checkpoint s))
  end.
Proof.
  rewrite initProject_exec. destruct (projects (checkpoint s) !! key); [done|].
  by rewrite save_projects.
Qed.

Lemma updateProgress_exec (key issueKey : string) (issueIndex : Z) (s : Sys) :
  exec (updateProgress key issueKey issueIndex) s =
  let s1 := exec (initProject key) s in
  exec save
    (mkSys
       (set_projects
          (alter (progressed issueKey issueIndex (clock (dates (world s1)))) key)
          (checkpoint s1))
       (mkWorld (disk (world s1)) (writes (world s1)) (S (dates (world s1))))).
Proof.
  cbn zeta. set (s1 := exec (initProject key) s).
  assert (Hs1 : (match projects (checkpoint s) !! key with
                 | Some _ => mret tt
                 | None => initProject key
                 end) s = (tt, s1)).
  { subst s1. destruct (projects (checkpoint s) !! key) eqn:E.
    - by rewrite initProject_exec, E.
    - unfold exec. by destruct (initProject key s) as [[] s']. }
  unfold Ledger.updateProgress, exec at 1, mbind, M_bind, gets. cbn.
  rewrite Hs1. unfold modify, toISOString_now. cbn.
  rewrite save_exec. unfold exec, Ledger.save, mbind, M_bind, gets, modify,
    toISOString_now, writeFileSync, set_projects. cbn.
  by rewrite !alter_alter_eq.
Qed.

Lemma updateProgress_projects (key issueKey : string) (issueIndex : Z) (s : Sys) :
  projects (checkpoint (exec (updateProgress key issueKey issueIndex) s)) =
  let s1 := exec (initProject key) s in
  alter (progressed issueKey issueIndex (clock (dates (world s1)))) key
    (projects (checkpoint s1)).
Proof. by rewrite updateProgress_exec. Qed.

Lemma markProjectCompleted_exec (key : string) (s : Sys) :
  exec (markProjectCompleted key) s =
  match projects (checkpoint s) !! key with
  | Some _ =>
      exec save
        (mkSys (set_projects (alter (set_completed true) key) (checkpoint s)) (world s))
  | None => s
  end.
Proof.
  unfold_ops. cbn. destruct (projects (checkpoint s) !! key); [done|].
  by destruct s.
Qed.

Lemma markProjectCompleted_projects (key : string) (s : Sys) :
  projects (checkpoint (exec (markProjectCompleted key) s)) =
  alter (set_completed true) key (projects (checkpoint s)).
Proof.
  rewrite markProjectCompleted_exec.
  destruct (projects (checkpoint s) !! key) eqn:E.
  - by rewrite save_projects.
  - symmetry. apply map_eq. intros k. rewrite lookup_alter.
    case_decide; [subst; by rewrite E|done].
Qed.

Lemma clear_exec (s : Sys) :
  exec clear s =
  let d := dates (world s) in
  exec save
    (mkSys (mkScraperCheckpoint ∅ (clock d) (clock (S d)))
       (mkWorld (disk (world s)) (writes (world s)) (S (S d)))).
Proof. by unfold_ops. Qed.

Lemma eval_getLastIndex (key : string) (s : Sys) :
  eval (getLastIndex key) s =
  match record_of key s with Some r => lastIssueIndex r | None => -1 end.
Proof. done. Qed.

Lemma eval_isProjectCompleted (key : string) (s : Sys) :
  eval (isProjectCompleted key) s =
  match record_of key s with Some r => completed r | None => false end.
Proof. done. Qed.

(** The record of [key] after one operation other than [clear]. *)
Lemma step_record_of (key : string) (op : Op) (s : Sys) :
  is_clear op = false →
  record_of key (exec (step op) s) =
  match op with
  | InitProject k =>
      if bool_decide (k = key) then
        Some (default (mkCheckpointState k "" (-1) 0 (clock (dates (world s))) false)
                (record_of key s))
      else record_of key s
  | UpdateProgress k ik i =>
      if bool_decide (k = key) then
        Some (progressed ik i (clock (dates (world (exec (initProject k) s))))
                (default (mkCheckpointState k "" (-1) 0 (clock (dates (world s))) false)
                   (record_of key s)))
      else record_of key s
  | MarkProjectCompleted k =>
      if bool_decide (k = key) then set_completed true <$> record_of key s
      else record_of key s
  | _ => record_of key s
  end.
Proof.
  intros Hc. unfold record_of. destruct op; try done; cbn [step].
  - rewrite initProject_projects. case_bool_decide; subst.
    + destruct (projects (checkpoint s) !! key) eqn:E; [done|].
      by rewrite lookup_insert_eq.
    + destruct (projects (checkpoint s) !! key0) eqn:E; [done|].
      by rewrite lookup_insert_ne.
  - rewrite updateProgress_projects. cbn zeta. rewrite initProject_projects.
    case_bool_decide; subst.
    + rewrite lookup_alter_eq.
      destruct (projects (checkpoint s) !! key) eqn:E; [by rewrite E|].
      by rewrite lookup_insert_eq.
    + rewrite lookup_alter_ne by done.
      destruct (projects (checkpoint s) !! key0) eqn:E; [done|].
      by rewrite lookup_insert_ne.
  - rewrite markProjectCompleted_projects. case_bool_decide; subst.
    + by rewrite lookup_alter_eq.
    + by rewrite lookup_alter_ne.
Qed.

Lemma step_getLastIndex (key : string) (op : Op) (s : Sys) :
  is_clear op = false →
  eval (getLastIndex key) (exec (step op) s) =
  match op with
  | UpdateProgress k _ i =>
      if bool_decide (k = key) then i else eval (getLastIndex key) s
  | _ => eval (getLastIndex key) s
  end.
Proof.
  intros Hc. rewrite !eval_getLastIndex, step_record_of by done.
  destruct op; try done; case_bool_decide; try done;
    by destruct (record_of key s).
Qed.

Lemma step_completed_sticks (key : string) (op : Op) (s : Sys) :
  is_clear op = false →
  eval (isProjectCompleted key) s = true →
  eval (isProjectCompleted key) (exec (step op) s) = true.
Proof.
  intros Hc. rewrite !eval_isProjectCompleted, step_record_of by done.
  destruct op; try done; case_bool_decide; try done;
    by destruct (record_of key s).
Qed.

Lemma step_completed_frame (key : string) (op : Op) (s : Sys) (r : CheckpointState) :
  is_clear op = false → updates key op = false →
  record_of key s = Some r → completed r = true →
  record_of key (exec (step op) s) = Some r.
Proof.
  intros Hc Hu Hr Hd. rewrite step_record_of by done.
  destruct op; try done; cbn in Hu; case_bool_decide; try done; rewrite Hr; cbn.
  - done.
  - destruct r; cbn in *; by subst.
Qed.

(** C1 (amended).  Across any sequence of ledger operations without
    [clear], the last index of a collection is the index passed by the
    latest [updateProgress] call for it (whatever the previous index and
    whether or not the record is completed) and is unchanged when there
    is none; a collection that is completed stays completed; and a
    completed record keeps every field as long as the sequence holds no
    [updateProgress] for it. *)
Theorem ledger_record_invariant (key : string) (ops : list Op) (s : Sys) :
  existsb is_clear ops = false →
  eval (getLastIndex key) (run ops s)
    = last_supplied key ops (eval (getLastIndex key) s)
  ∧ (eval (isProjectCompleted key) s = true →
     eval (isProjectCompleted key) (run ops s) = true)
  ∧ (existsb (updates key) ops = false →
     ∀ r : CheckpointState,
       record_of key s = Some r → completed r = true →
       record_of key (run ops s) = Some r).
Proof.
  revert s. induction ops as [|op ops IH]; intros s Hc; [done|].
  cbn [existsb] in Hc. apply orb_false_elim in Hc as [Hop Hc].
  destruct (IH (exec (step op) s) Hc) as (IHi & IHc & IHf).
  cbn [run last_supplied]. split; [|split].
  - rewrite IHi, step_getLastIndex by done. by destruct op.
  - intros Hd. apply IHc. by apply step_completed_sticks.
  - intros Hu r Hr Hd. cbn [existsb] in Hu. apply orb_false_elim in Hu as [Hu1 Hu].
    apply IHf; [done| |done]. by apply step_completed_frame.
Qed.

(** C8.  [initProject] creates the record of a collection that has none,
    with last index -1, processed count 0 and [completed = false]; on a
    collection that has a record it changes nothing, neither in memory
    nor on disk; so calling it twice is calling it once. *)
Theorem initProject_idempotent (key : string) (s : Sys) :
  match record_of key s with
  | None =>
      record_of key (exec (initProject key) s)
      = Some (mkCheckpointState key "" (-1) 0 (clock (dates (world s))) false)
  | Some _ => exec (initProject key) s = s
  end
  ∧ exec (initProject key) (exec (initProject key) s) = exec (initProject key) s.
Proof.
  assert (H1 : match record_of key s with
               | None =>
                   record_of key (exec (initProject key) s)
                   = Some (mkCheckpointState key "" (-1) 0 (clock (dates (world s))) false)
               | Some _ => exec (initProject key) s = s
               end).
  { unfold record_of. destruct (projects (checkpoint s) !! key) eqn:E.
    - by rewrite initProject_exec, E.
    - by rewrite initProject_projects, E, lookup_insert_eq. }
  split; [done|].
  destruct (record_of key s) eqn:E.
  - by rewrite !H1.
  - rewrite (initProject_exec key (exec (initProject key) s)).
    unfold record_of in H1. by rewrite H1.
Qed.

(** C10.  The queries [getLastIndex], [isProjectCompleted],
    [getProjectState], [getAllStates] and [getSummary] leave the
    document in memory, the file and the count of writes as they were.
    [initProject] writes once when it creates the record and does
    nothing otherwise; [updateProgress] always writes (twice when it has
    to create the record first); [markProjectCompleted] writes once when
    the record exists and does nothing otherwise; [clear] writes once;
    and what the latest write stores is the document as it is in
    memory. *)
Theorem queries_are_pure_reads (key issueKey : string) (issueIndex : Z) (s : Sys) :
  (exec (getLastIndex key) s = s
   ∧ exec (isProjectCompleted key) s = s
   ∧ exec (getProjectState key) s = s
   ∧ exec getAllStates s = s
   ∧ exec getSummary s = s)
  ∧ match record_of key s with
    | None =>
        let s' := exec (initProject key) s in
        writes (world s') = S (writes (world s)) ∧ wrote_back write_ok s'
    | Some _ => exec (initProject key) s = s
    end
  ∧ (let s' := exec (updateProgress key issueKey issueIndex) s in
     writes (world s')
       = match record_of key s with
         | None => S (S (writes (world s)))
         | Some _ => S (writes (world s))
         end
     ∧ wrote_back write_ok s')
  ∧ match record_of key s with
    | Some _ =>
        let s' := exec (markProjectCompleted key) s in
        writes (world s') = S (writes (world s)) ∧ wrote_back write_ok s'
    | None => exec (markProjectCompleted key) s = s
    end
  ∧ (let s' := exec clear s in
     writes (world s') = S (writes (world s)) ∧ wrote_back write_ok s').
Proof.
  assert (Hsave : ∀ t : Sys, wrote_back write_ok (exec save t)).
  { intros t. rewrite save_exec. unfold wrote_back, persisted. cbn.
    by destruct (write_ok (writes (world t))). }
  split; [by destruct s|]. unfold record_of. cbn zeta.
  rewrite updateProgress_exec, clear_exec, markProjectCompleted_exec,
    !initProject_exec. cbn zeta.
  destruct (projects (checkpoint s) !! key) eqn:E; repeat split; try done;
    try apply Hsave.
Qed.

(** A file that holds a document lies in its directory, which the
    constructor then does not have to create. *)
Lemma persisted_disk (s : Sys) :
  persisted s → disk (world s) = Directory (Some (Document (stringify (checkpoint s)))).
Proof.
  unfold persisted, file. destruct (disk (world s)) as [|f]; [done|]. by intros ->.
Qed.

Lemma constructed_on_persisted (s : Sys) :
  persisted s → new_CheckpointManager clock (world s) = Some s.
Proof.
  intros Hp. unfold new_CheckpointManager, existsSync_dir, load, file.
  rewrite (persisted_disk s Hp). cbn. rewrite (persisted_disk s Hp), parse_stringify.
  by destruct s.
Qed.

(** C7.  A ledger constructed on a disk that holds the persisted
    document of a ledger state is that state again: for every
    collection [getLastIndex] and [isProjectCompleted] give the results
    they gave before. *)
Theorem reload_round_trip (s : Sys) :
  persisted s →
  ∃ s' : Sys,
    new_CheckpointManager clock (world s) = Some s'
    ∧ checkpoint s' = checkpoint s
    ∧ ∀ key : string,
        eval (getLastIndex key) s' = eval (getLastIndex key) s
        ∧ eval (isProjectCompleted key) s' = eval (isProjectCompleted key) s.
Proof.
  intros Hp. exists s. by rewrite constructed_on_persisted.
Qed.

(** Where no file exists, the constructor starts from the empty
    document. *)
Lemma fresh_ledger_constructed :
  new_CheckpointManager clock (mkWorld (Directory None) 0 0) = Some (fresh_ledger clock).
Proof. done. Qed.

(** Every operation that writes successfully leaves a persisted state. *)
Lemma save_persists (s : Sys) :
  write_ok (writes (world s)) = true → persisted (exec save s).
Proof. intros Hw. rewrite save_exec. unfold persisted. cbn. by rewrite Hw. Qed.

End Operations.

(** C1, as the specification states it, fails on both counts:
    [updateProgress] stores the index it is given, smaller or not, and
    it rewrites a record that is completed. *)
Lemma ledger_invariant_as_stated_fails :
  ¬ lastIndex_never_decreases ∧ ¬ completed_record_immutable.
Proof.
  split.
  - intros H.
    specialize (H sample_clock disk_ok "X"%string (UpdateProgress "X" "X-1" 0)
                  (run sample_clock disk_ok [UpdateProgress "X" "X-5" 4]
                     (fresh_ledger sample_clock))
                  eq_refl eq_refl).
    vm_compute in H. by apply H.
  - intros H.
    specialize (H sample_clock disk_ok "X"%string (UpdateProgress "X" "X-9" 8)
                  sample_completed
                  (mkCheckpointState "X" "X-5" 4 1 (sample_clock 0%nat) true)
                  eq_refl eq_refl eq_refl).
    vm_compute in H. discriminate H.
Qed.

Lemma ledger_record_invariant_witness :
  let ops := [InitProject "X"; MarkProjectCompleted "X";
              UpdateProgress "Y" "Y-1" 0; GetLastIndex "X"]%string in
  let after := run sample_clock disk_ok ops sample_completed in
  eval (getLastIndex "X") after = 4
  ∧ eval (isProjectCompleted "X") after = true
  ∧ record_of "X" after = record_of "X" sample_completed.
Proof.
  intros ops after.
  destruct (ledger_record_invariant sample_clock disk_ok "X" ops sample_completed
              eq_refl) as (Hi & Hc & Hf).
  split; [exact Hi|]. split; [exact (Hc eq_refl)|].
  exact (Hf eq_refl _ eq_refl eq_refl).
Defined.

Lemma reload_round_trip_witness :
  ∃ s' : Sys,
    new_CheckpointManager sample_clock (world sample_completed) = Some s'
    ∧ checkpoint s' = checkpoint sample_completed
    ∧ ∀ key : string,
        eval (getLastIndex key) s' = eval (getLastIndex key) sample_completed
        ∧ eval (isProjectCompleted key) s'
          = eval (isProjectCompleted key) sample_completed.
Proof. apply (reload_round_trip sample_clock sample_completed). reflexivity. Defined.


End LedgerFacts.

(** * Properties of the fetch client *)

Module ClientFacts.
Import Client.

(** ** Where a mark of the network can occur in a message *)

Lemma append_cons (c : ascii) (t b : string) :
  (String c t ++ b)%string = String c (t ++ b).
Proof. done. Qed.

Lemma append_assoc (a b c : string) :
  ((a ++ b) ++ c)%string = (a ++ (b ++ c))%string.
Proof. induction a as [|x a IH]; [done|]. by rewrite !append_cons, IH. Qed.

Lemma prefix_no_match (needle t b : string) :
  no_match_at needle t = true → String.prefix needle (t ++ b) = false.
Proof.
  revert t. induction needle as [|a needle IH]; intros [|c t] H; try done.
  rewrite append_cons. cbn in *. destruct (ascii_dec a c) as [->|Hne]; [|done].
  rewrite Ascii.eqb_refl in H. by apply IH.
Qed.

Lemma includes_unfold (needle hay : string) :
  includes needle hay =
  String.prefix needle hay
  || match hay with
     | EmptyString => false
     | String _ rest => includes needle rest
     end.
Proof. by destruct hay. Qed.

Lemma includes_after_prefix (needle p b : string) :
  never_starts_in needle p = true →
  includes needle (p ++ b) = includes needle b.
Proof.
  induction p as [|c p IH]; intros H; [done|].
  cbn [never_starts_in] in H. apply andb_prop in H as [H1 H2].
  rewrite includes_unfold, (prefix_no_match needle (String c p) b H1).
  rewrite append_cons. cbn. by apply IH.
Qed.

Lemma in_range_of (lo : Z) (n : nat) (x : Z) :
  lo ≤ x < lo + Z.of_nat n → ∃ k : nat, In k (seq 0 n) ∧ x = lo + Z.of_nat k.
Proof.
  intros H. exists (Z.to_nat (x - lo)). split; [|lia].
  apply in_seq. lia.
Qed.

Lemma client_error_prefixes_checked :
  forallb
    (λ k : nat,
       let p := ("Client error " ++ pretty (400 + Z.of_nat k) ++ ": ")%string in
       never_starts_in "fetch failed" p && never_starts_in "network" p)
    (seq 0 100) = true.
Proof. by vm_compute. Qed.

(** In the message of a client error, a mark can only come from the
    body of the response. *)
Lemma client_error_message_marked (st : Z) (body : string) :
  400 ≤ st < 500 →
  network_marked ("Client error " ++ pretty st ++ ": " ++ body) = network_marked body.
Proof.
  intros H. destruct (in_range_of 400 100 st) as (k & Hk & ->); [lia|].
  pose proof client_error_prefixes_checked as Hall.
  rewrite forallb_forall in Hall. specialize (Hall k Hk). cbn zeta in Hall.
  apply andb_prop in Hall as [H1 H2].
  unfold network_marked.
  replace ("Client error " ++ pretty (400 + Z.of_nat k) ++ ": " ++ body)%string
    with (("Client error " ++ pretty (400 + Z.of_nat k) ++ ": ") ++ body)%string.
  - by rewrite !includes_after_prefix.
  - by rewrite !append_assoc.
Qed.

Lemma server_error_messages_checked :
  forallb
    (λ k : nat,
       negb (network_marked
               ("Server error " ++ pretty (500 + Z.of_nat k) ++ " after "
                  ++ pretty maxRetries ++ " retries")))
    (seq 0 100) = true.
Proof. by vm_compute. Qed.

Lemma server_error_message_unmarked (st : Z) :
  500 ≤ st < 600 →
  network_marked
    ("Server error " ++ pretty st ++ " after " ++ pretty maxRetries ++ " retries")
  = false.
Proof.
  intros H. destruct (in_range_of 500 100 st) as (k & Hk & ->); [lia|].
  pose proof server_error_messages_checked as Hall.
  rewrite forallb_forall in Hall. specialize (Hall k Hk).
  by apply negb_true_iff in Hall.
Qed.

(** ** [parseInt] on a number of seconds *)

Lemma read_decimal_digits (s : string) (acc : Z) (o : option Z) (n : Z) :
  decimal_value acc s = Some n →
  default 0 o = acc → (s = EmptyString → is_Some o) →
  read_digits 10 o s = Some n.
Proof.
  revert acc o. induction s as [|c s IH]; intros acc o H Ho Hne; cbn in *.
  - destruct Hne as [x ->]; [done|]. cbn in Ho. congruence.
  - unfold digit_value. destruct (is_decimal_digit c); [|done].
    apply (IH _ _ H); [by rewrite Ho|]. by eexists.
Qed.

Lemma decimal_digit_plain (c : ascii) :
  is_decimal_digit c = true →
  is_white_space c = false ∧ Ascii.eqb c "-" = false ∧ Ascii.eqb c "+" = false
  ∧ Ascii.eqb c "x" = false ∧ Ascii.eqb c "X" = false.
Proof.
  intros H. repeat split.
  - unfold is_decimal_digit in H. unfold is_white_space.
    apply andb_prop in H as [H1 H2]. apply Z.leb_le in H1.
    destruct (Nat.leb_spec (nat_of_ascii c) 13); [lia|].
    destruct (Nat.eqb_spec (nat_of_ascii c) 32); [lia|]. by rewrite andb_false_r.
  - by destruct (Ascii.eqb_spec c "-") as [->|].
  - by destruct (Ascii.eqb_spec c "+") as [->|].
  - by destruct (Ascii.eqb_spec c "x") as [->|].
  - by destruct (Ascii.eqb_spec c "X") as [->|].
Qed.

Lemma parseInt_delay_seconds (header : string) (n : Z) :
  delay_seconds header = Some n → parseInt header = Some n.
Proof.
  destruct header as [|c rest]; [done|]. intros H. cbn [delay_seconds] in H.
  assert (Hc : is_decimal_digit c = true).
  { cbn [decimal_value] in H. by case_match. }
  pose proof (read_decimal_digits (String c rest) 0 None n H eq_refl) as Hread.
  destruct (decimal_digit_plain c Hc) as (Hw & Hm & Hp & _).
  unfold parseInt. cbn [skip_white_space]. rewrite Hw, Hm, Hp.
  assert (Hplain : (let '(radix, s3) :=
                      match String c rest with
                      | String c0 (String x rest0) =>
                          if Ascii.eqb c0 "0" && (Ascii.eqb x "x" || Ascii.eqb x "X")
                          then (16, rest0) else (10, String c rest)
                      | _ => (10, String c rest)
                      end in
                    Z.mul 1 <$> read_digits radix None s3) = Some n).
  { destruct rest as [|x rest'].
    - rewrite Hread by done. cbn. f_equal. lia.
    - assert (Hx : is_decimal_digit x = true).
      { cbn [decimal_value] in H. rewrite Hc in H. by case_match. }
      destruct (decimal_digit_plain x Hx) as (_ & _ & _ & Hx1 & Hx2).
      rewrite Hx1, Hx2, andb_false_r. rewrite Hread by done. cbn. f_equal. lia. }
  exact Hplain.
Qed.

Section Retry.

Context {JiraIssue : Type}.
Variable server : Server JiraIssue.

(** [fetchWithRetry] is its body, with the call of itself in place. *)
Lemma fetchWithRetry_unfold (url : Request) (retryCount : nat) (st : State) :
  fetchWithRetry server url retryCount st =
  match attempt server url retryCount st with
  | Again st' => fetchWithRetry server url (S retryCount) st'
  | Settled o st' => (o, st')
  end.
Proof.
  simp fetchWithRetry.
  destruct (Equations.Prop.Logic.inspect (attempt server url retryCount st)) as [a e].
  transitivity (match a with
                | Again st' => fetchWithRetry server url (S retryCount) st'
                | Settled o st' => (o, st')
                end).
  - destruct a; by simp fetchWithRetry.
  - by rewrite e.
Qed.

(** What [rateLimit] and [fetch] leave behind. *)
Lemma fetch_rateLimit (url : Request) (st : State) :
  ∃ st2 : State,
    fetch server url (rateLimit st) = (reply (server (served st) url), st2)
    ∧ served st2 = S (served st)
    ∧ fetches (trace st2) = fetches (trace st) ++ [url]
    ∧ backoffs (trace st2) = backoffs (trace st).
Proof.
  exists (fetch server url (rateLimit st)).2. split; [|split; [|split]].
  - unfold fetch, rateLimit, sleep. cbn. by case_match.
  - unfold fetch, rateLimit, sleep. cbn. by case_match.
  - unfold fetch, rateLimit, sleep, fetches. cbn.
    case_match; cbn; rewrite !omap_app; cbn; by rewrite ?app_nil_r.
  - unfold fetch, rateLimit, sleep, backoffs. cbn.
    case_match; cbn; rewrite !omap_app; cbn; by rewrite ?app_nil_r.
Qed.

Lemma sleep_backoff (w : option Z) (st : State) :
  served (sleep (Backoff w) w st) = served st
  ∧ fetches (trace (sleep (Backoff w) w st)) = fetches (trace st)
  ∧ backoffs (trace (sleep (Backoff w) w st)) = backoffs (trace st) ++ [w].
Proof.
  unfold sleep, fetches, backoffs. cbn. rewrite !omap_app. cbn.
  by rewrite app_nil_r.
Qed.

Lemma between_trans (st st1 st2 : State) (u1 u2 : list Request)
    (w1 w2 : list (option Z)) :
  between st st1 u1 w1 → between st1 st2 u2 w2 →
  between st st2 (u1 ++ u2) (w1 ++ w2).
Proof.
  intros (H1 & H2 & H3) (H4 & H5 & H6). unfold between.
  rewrite H4, H5, H6, H1, H2, H3, length_app, !app_assoc. split; [lia|done].
Qed.

(** One request and the wait that follows it. *)
Lemma fetch_then_backoff (url : Request) (st : State) (w : option Z) :
  ∃ st2 : State,
    fetch server url (rateLimit st) = (reply (server (served st) url), st2)
    ∧ between st st2 [url] []
    ∧ between st (sleep (Backoff w) w st2) [url] [w].
Proof.
  destruct (fetch_rateLimit url st) as (st2 & Hf & H1 & H2 & H3).
  destruct (sleep_backoff w st2) as (H4 & H5 & H6).
  exists st2. unfold between. cbn [length].
  rewrite H4, H5, H6, H1, H2, H3, app_nil_r. repeat split; try done; lia.
Qed.

Lemma on_error_unmarked (retryCount : nat) (message : string) (st : State) :
  network_marked message = false →
  on_error (JiraIssue := JiraIssue) retryCount message st
  = Settled (Rejected message) st.
Proof. unfold on_error, network_marked. by intros ->. Qed.

(** *** The run in time *)

Lemma timer_at_least_1 (w : option Z) : 1 ≤ timer w.
Proof.
  unfold timer. destruct w as [d|]; [|done].
  destruct (Z.leb_spec 1 d), (Z.leb_spec d 2147483647); cbn; lia.
Qed.

Lemma timer_in_range (d : Z) : d ≤ 2147483647 → timer (Some d) = Z.max 1 d.
Proof.
  intros Hd. unfold timer.
  destruct (Z.leb_spec 1 d), (Z.leb_spec d 2147483647); cbn; lia.
Qed.

Lemma exponential_in_range (retryCount : nat) :
  (retryCount ≤ maxRetries)%nat → 1000 ≤ exponential retryCount ≤ 8000.
Proof.
  unfold maxRetries, exponential. intros H.
  destruct retryCount as [|[|[|[|k]]]]; cbn; lia.
Qed.

(** [rateLimit] and [fetch]: the request is sent and answered. *)
Lemma fetch_requested (url : Request) (st : State) :
  ∃ st2 : State,
    fetch server url (rateLimit st) = (reply (server (served st) url), st2)
    ∧ requested server url st st2.
Proof.
  exists (fetch server url (rateLimit st)).2. split.
  - unfold fetch, rateLimit, sleep. cbn. by case_match.
  - unfold requested, fetch, rateLimit, sleep.
    destruct (now st - lastRequestTime st <? minDelay) eqn:E; cbn.
    + exists [minDelay - (now st - lastRequestTime st)]. cbn.
      pose proof (timer_at_least_1 (Some (minDelay - (now st - lastRequestTime st)))).
      unfold timer in H. rewrite <- app_assoc. repeat split; try done; lia.
    + exists []. cbn. repeat split; try done; lia.
Qed.

(** The timer of a wait within its range. *)
Lemma sleep_waited (d : Z) (st : State) :
  d ≤ 2147483647 → waited (Some d) st (sleep (Backoff (Some d)) (Some d) st).
Proof.
  intros Hd. exists d. unfold sleep. cbn [trace now served requestCount lastRequestTime].
  by rewrite (timer_in_range d Hd).
Qed.

(** One request and the wait behind the reaction to it. *)
Lemma fetch_then_wait (url : Request) (st : State) (d : Z) :
  d ≤ 2147483647 →
  ∃ st2 : State,
    fetch server url (rateLimit st) = (reply (server (served st) url), st2)
    ∧ round server url (Some d) st (sleep (Backoff (Some d)) (Some d) st2).
Proof.
  intros Hd. destruct (fetch_requested url st) as (st2 & Hf & Hreq).
  exists st2. split; [exact Hf|]. exists st2. split; [exact Hreq|].
  by apply sleep_waited.
Qed.

(** A 429 answer: the wait, then the next attempt or the failure. *)
Lemma attempt_429 (url : Request) (retryCount : nat) (st : State)
    (r : Response JiraIssue) :
  reply (server (served st) url) = Responds r →
  status r = 429 ∧ retry_after_fits_timer r →
  (retryCount ≤ maxRetries)%nat →
  ∃ st' : State,
    round server url (wait_429 retryCount r) st st'
    ∧ attempt server url retryCount st
      = if (retryCount <? maxRetries)%nat then Again st'
        else Settled (Rejected "Rate limit exceeded after 3 retries") st'.
Proof.
  intros Hr [Hs Hh] Hrc.
  assert (Hw : ∃ d : Z,
            d ≤ 2147483647 ∧ wait_429 retryCount r = Some d
            ∧ match retryAfter r with
              | Some (String c rest) => (λ n, n * 1000) <$> parseInt (String c rest)
              | Some EmptyString | None => Some (exponential retryCount)
              end = Some d).
  { unfold wait_429, retry_after_fits_timer in *.
    destruct (retryAfter r) as [[|c rest]|].
    - by destruct Hh as (n & Hn & _).
    - destruct Hh as (n & Hn & Hmax). exists (n * 1000).
      by rewrite (parseInt_delay_seconds _ _ Hn), Hn.
    - exists (exponential retryCount).
      pose proof (exponential_in_range retryCount Hrc). split; [lia|done]. }
  destruct Hw as (d & Hd & -> & Hcode).
  destruct (fetch_then_wait url st d Hd) as (st2 & Hf & Hround).
  eexists. split; [exact Hround|].
  unfold attempt. rewrite Hf, Hr, Hs. cbn [Z.eqb Pos.eqb]. rewrite Hcode.
  destruct (retryCount <? maxRetries)%nat; [done|].
  by apply on_error_unmarked.
Qed.

(** A 5xx answer: the wait, then the next attempt or the failure. *)
Lemma attempt_5xx (url : Request) (retryCount : nat) (st : State)
    (r : Response JiraIssue) :
  reply (server (served st) url) = Responds r →
  is_5xx r →
  (retryCount ≤ maxRetries)%nat →
  ∃ st' : State,
    round server url (Some (2 ^ Z.of_nat retryCount * 1000)) st st'
    ∧ attempt server url retryCount st
      = if (retryCount <? maxRetries)%nat then Again st'
        else Settled
               (Rejected ("Server error " ++ pretty (status r) ++ " after 3 retries"))
               st'.
Proof.
  intros Hr Hs Hrc. unfold is_5xx in Hs.
  pose proof (exponential_in_range retryCount Hrc) as Hexp.
  destruct (fetch_then_wait url st (exponential retryCount)) as (st2 & Hf & Hround);
    [lia|].
  eexists. split; [exact Hround|].
  unfold attempt. rewrite Hf, Hr.
  destruct (Z.eqb_spec (status r) 429); [lia|].
  destruct (Z.leb_spec 500 (status r)); [|lia].
  destruct (Z.ltb_spec (status r) 600); [|lia]. cbn [andb].
  destruct (retryCount <? maxRetries)%nat; [done|].
  apply on_error_unmarked. by apply server_error_message_unmarked.
Qed.

Lemma round_served (url : Request) (w : option Z) (st st' : State) :
  round server url w st st' → served st' = S (served st).
Proof.
  intros (st1 & (pace & _ & Hs & _) & (d & _ & _ & _ & Hs' & _)). by rewrite Hs', Hs.
Qed.

(** A run of reactions that are all retried, each by its round. *)
Lemma retry_chain {X : Type} (given : X → Reply JiraIssue) (good : X → Prop)
    (wait : nat → X → option Z) (failure : X → string) :
  (∀ url retryCount st x,
     reply (server (served st) url) = given x → good x →
     (retryCount ≤ maxRetries)%nat →
     ∃ st' : State,
       round server url (wait retryCount x) st st'
       ∧ attempt server url retryCount st
         = if (retryCount <? maxRetries)%nat then Again st'
           else Settled (Rejected (failure x)) st') →
  ∀ (xs : list X) (url : Request) (retryCount : nat) (st : State),
    (∀ i x, xs !! i = Some x → reply (server (served st + i)%nat url) = given x) →
    Forall good xs →
    (retryCount ≤ maxRetries)%nat →
    (retryCount + length xs ≤ S maxRetries)%nat →
    ∃ st' : State,
      rounds server url (imap (λ i, wait (retryCount + i)%nat) xs) st st'
      ∧ served st' = (served st + length xs)%nat
      ∧ if decide (retryCount + length xs ≤ maxRetries)%nat then
          fetchWithRetry server url retryCount st
          = fetchWithRetry server url (retryCount + length xs)%nat st'
        else
          ∃ x, last xs = Some x
               ∧ fetchWithRetry server url retryCount st = (Rejected (failure x), st').
Proof.
  intros Hstep xs. induction xs as [|x xs IH]; intros url rc st Ha Hg Hrc Hlen.
  - exists st. cbn [length imap rounds]. rewrite !Nat.add_0_r.
    split; [done|]. split; [done|]. by rewrite decide_True.
  - apply Forall_cons in Hg as [Hg1 Hg].
    assert (Hr : reply (server (served st) url) = given x).
    { rewrite <- (Ha 0%nat x eq_refl). by rewrite Nat.add_0_r. }
    destruct (Hstep url rc st x Hr Hg1 Hrc) as (st1 & Hround & Hatt).
    pose proof (round_served _ _ _ _ Hround) as Hs1.
    rewrite fetchWithRetry_unfold, Hatt.
    destruct (Nat.ltb_spec rc maxRetries) as [Hlt|Hge].
    + cbn [length] in Hlen.
      destruct (IH url (S rc) st1) as (st' & Hrounds & Hs' & Hres); [|done|lia..|].
      { intros i y Hi. rewrite Hs1.
        replace (S (served st) + i)%nat with (served st + S i)%nat by lia.
        by apply Ha. }
      exists st'. split; [|split].
      * cbn [imap rounds]. exists st1. rewrite Nat.add_0_r. split; [exact Hround|].
        erewrite imap_ext; [exact Hrounds|]. intros i y _. cbn. f_equal. lia.
      * cbn [length]. lia.
      * cbn [length]. replace (rc + S (length xs))%nat with (S rc + length xs)%nat by lia.
        destruct (decide (S rc + length xs ≤ maxRetries)%nat); [done|].
        destruct Hres as (x' & Hl & Hres). exists x'. split; [|done].
        destruct xs; [done|]. by rewrite last_cons, Hl.
    + assert (xs = []) as ->.
      { cbn [length] in Hlen. destruct xs; [done|]. cbn in Hlen. lia. }
      exists st1. cbn [imap rounds length]. rewrite Nat.add_0_r. split; [|split].
      * by exists st1.
      * lia.
      * rewrite decide_False by lia. by exists x.
Qed.

(** Rounds tell the requests and the waits of a run, and more: their
    order and the time they take. *)
Lemma rounds_between (url : Request) (ws : list (option Z)) :
  ∀ st st' : State,
    rounds server url ws st st' → between st st' (replicate (length ws) url) ws.
Proof.
  assert (Hpace : ∀ (A : Type) (f : Event → option A) (pace : list Z),
            (∀ ms, f (Paced ms) = None) → omap f (Paced <$> pace) = []).
  { intros A f pace Hf. induction pace as [|ms pace IH]; [done|].
    cbn. by rewrite Hf. }
  induction ws as [|w ws IH]; intros st st' H.
  - cbn in H. subst. unfold between. cbn. by rewrite !app_nil_r, Nat.add_0_r.
  - destruct H as (st1 & (st0 & (pace & Ht0 & Hs0 & _) & (d & _ & Ht1 & _ & Hs1 & _))
                   & Hrest).
    apply IH in Hrest.
    apply (between_trans st st1 st' [url] (replicate (length ws) url) [w] ws);
      [|exact Hrest].
    unfold between, fetches, backoffs.
    rewrite Ht1, Ht0, Hs1, Hs0, !omap_app, !Hpace by done. cbn.
    rewrite !app_nil_r. split; [lia|done].
Qed.

Lemma answers_lookup (n : nat) (url : Request) (rs : list (Response JiraIssue)) :
  answers server n url rs →
  ∀ i r, rs !! i = Some r → reply (server (n + i)%nat url) = Responds r.
Proof.
  revert n. induction rs as [|r0 rs IH]; intros n Ha i r Hi; [done|].
  destruct Ha as [H0 Ha]. destruct i as [|i]; cbn in Hi.
  - injection Hi as <-. by rewrite Nat.add_0_r.
  - replace (n + S i)%nat with (S n + i)%nat by lia. by apply IH.
Qed.


(** C4.  To answers of 5xx the client reacts in rounds, one after the
    other, whatever the headers of the answer: it sends the request,
    and when the answer has arrived it waits [2^k] seconds, [k] being
    the number of the attempt from 0 (1, 2 and 4 seconds before the
    three retries), before it goes on to the next request.  It does so
    for up to [maxRetries = 3] answers; on the fourth, having waited
    once more, it fails with the error "Server error" carrying the
    status. *)
Theorem server_error_backoff (url : Request) (st : State)
    (rs : list (Response JiraIssue)) :
  answers server (served st) url rs →
  Forall is_5xx rs →
  (length rs ≤ S maxRetries)%nat →
  ∃ st' : State,
    rounds server url
      ((λ k : nat, Some (2 ^ Z.of_nat k * 1000)) <$> seq 0 (length rs)) st st'
    ∧ (exponential 0 = 1000 ∧ exponential 1 = 2000 ∧ exponential 2 = 4000)
    ∧ if decide (length rs ≤ maxRetries)%nat then
        fetchWithRetry server url 0 st = fetchWithRetry server url (length rs) st'
      else
        ∃ r, last rs = Some r
             ∧ fetchWithRetry server url 0 st
               = (Rejected ("Server error " ++ pretty (status r) ++ " after 3 retries"),
                  st').
Proof.
  intros Ha Hg Hlen.
  destruct (retry_chain Responds _ (λ k _, Some (2 ^ Z.of_nat k * 1000))
              (λ r, "Server error " ++ pretty (status r) ++ " after 3 retries")%string
              attempt_5xx rs url 0%nat st (answers_lookup _ _ _ Ha) Hg)
    as (st' & Hrounds & _ & Hres); [unfold maxRetries; lia|done|].
  exists st'. cbn [Nat.add] in *. split; [|split; [done|done]].
  by rewrite imap_seq_0 in Hrounds.
Qed.

(** A 4xx answer other than 429 whose body bears no mark of the
    network: the failure, at once. *)
Lemma client_error_fails_at_once (url : Request) (retryCount : nat) (st : State)
    (r : Response JiraIssue) :
  reply (server (served st) url) = Responds r →
  is_client_error r → network_marked (text r) = false →
  ∃ st' : State,
    between st st' [url] []
    ∧ fetchWithRetry server url retryCount st
      = (Rejected ("Client error " ++ pretty (status r) ++ ": " ++ text r), st').
Proof.
  intros Hr [Hs Hn] Hm.
  destruct (fetch_then_backoff url st None) as (st2 & Hf & Hb & _).
  exists st2. split; [done|].
  rewrite fetchWithRetry_unfold. unfold attempt. rewrite Hf, Hr.
  destruct (Z.eqb_spec (status r) 429); [done|].
  destruct (Z.leb_spec 500 (status r)); [lia|]. cbn [andb].
  destruct (Z.leb_spec 400 (status r)); [|lia].
  destruct (Z.ltb_spec (status r) 500); [|lia]. cbn [andb].
  rewrite on_error_unmarked; [done|]. by rewrite client_error_message_marked.
Qed.

(** The same answer with a mark of the network in its body: the wait
    of a network failure, then the next attempt or the failure. *)
Lemma client_error_marked_is_retried (url : Request) (retryCount : nat) (st : State)
    (r : Response JiraIssue) :
  reply (server (served st) url) = Responds r →
  is_client_error r ∧ network_marked (text r) = true →
  ∃ st' : State,
    between st st' [url] [Some (2 ^ Z.of_nat retryCount * 1000)]
    ∧ attempt server url retryCount st
      = if (retryCount <? maxRetries)%nat then Again st'
        else Settled
               (Rejected ("Client error " ++ pretty (status r) ++ ": " ++ text r)) st'.
Proof.
  intros Hr [[Hs Hn] Hm].
  destruct (fetch_then_backoff url st (Some (exponential retryCount)))
    as (st2 & Hf & _ & Hb).
  eexists. split; [exact Hb|].
  unfold attempt. rewrite Hf, Hr.
  destruct (Z.eqb_spec (status r) 429); [done|].
  destruct (Z.leb_spec 500 (status r)); [lia|]. cbn [andb].
  destruct (Z.leb_spec 400 (status r)); [|lia].
  destruct (Z.ltb_spec (status r) 500); [|lia]. cbn [andb].
  unfold on_error. fold (network_marked ("Client error " ++ pretty (status r) ++ ": " ++ text r)).
  by rewrite client_error_message_marked, Hm.
Qed.

(** An answer that is neither 429 nor 4xx nor 5xx is returned. *)
Lemma other_status_is_returned (url : Request) (retryCount : nat) (st : State)
    (r : Response JiraIssue) :
  reply (server (served st) url) = Responds r →
  status r < 400 ∨ 600 ≤ status r →
  ∃ st' : State,
    between st st' [url] []
    ∧ fetchWithRetry server url retryCount st = (Resolved r, st').
Proof.
  intros Hr Hs.
  destruct (fetch_then_backoff url st None) as (st2 & Hf & Hb & _).
  exists st2. split; [done|].
  rewrite fetchWithRetry_unfold. unfold attempt. rewrite Hf, Hr.
  destruct (Z.eqb_spec (status r) 429); [lia|].
  destruct (Z.leb_spec 500 (status r)), (Z.ltb_spec (status r) 600),
    (Z.leb_spec 400 (status r)), (Z.ltb_spec (status r) 500); cbn [andb]; try lia; done.
Qed.

End Retry.



Lemma server_error_backoff_witness :
  ∃ st' : State,
    rounds (always unavailable) sample_url
      [Some 1000; Some 2000; Some 4000; Some 8000] new_client st'
    ∧ fetchWithRetry (always unavailable) sample_url 0 new_client
      = (Rejected "Server error 503 after 3 retries", st')
    ∧ now st' = now new_client + (300 + 1000) + (300 + 2000) + (300 + 4000)
                + (300 + 8000).
Proof.
  destruct (server_error_backoff (always unavailable) sample_url new_client
              (replicate 4 unavailable)) as (st' & Hr & _ & Hres).
  - cbn. repeat split.
  - repeat apply Forall_cons_2; try apply Forall_nil_2; unfold is_5xx; cbn; lia.
  - cbn. unfold maxRetries. lia.
  - destruct Hres as (r & Hl & Hres). cbn in Hl. injection Hl as <-.
    exists st'. split; [exact Hr|]. split; [exact Hres|].
    replace st' with (fetchWithRetry (always unavailable) sample_url 0 new_client).2
      by (by rewrite Hres).
    by vm_compute.
Defined.

(** C2, at the input where the code departs from it: the answer is 404
    with the body "network unreachable".  The client does not fail at
    once: it takes its own error for a failure of the network, waits
    1, 2, 4 and 8 seconds and sends the request four times before the
    error reaches the caller. *)
Theorem client_error_with_network_in_body_is_retried (JiraIssue : Type) :
  let r : Response JiraIssue := mkResponse 404 None "network unreachable" None in
  let url := SearchRequest "KAFKA" 0 50 in
  let result := fetchWithRetry (always r) url 0 new_client in
  result.1 = Rejected "Client error 404: network unreachable"
  ∧ fetches (trace result.2) = [url; url; url; url]
  ∧ backoffs (trace result.2) = [Some 1000; Some 2000; Some 4000; Some 8000].
Proof. by vm_compute. Qed.

(** ** Pagination *)

Section Paging.

Context {JiraIssue : Type}.

Lemma searchIssues_ok (server : Server JiraIssue) (key : string) (startAt : Z)
    (st : State) (r : Response JiraIssue) :
  reply (server (served st) (SearchRequest key startAt 50)) = Responds r →
  status r = 200 →
  ∃ st' : State,
    between st st' [SearchRequest key startAt 50] []
    ∧ searchIssues server key startAt 50 st = (json r, st').
Proof.
  intros Hr Hs.
  destruct (other_status_is_returned server _ 0 st r Hr) as (st' & Hb & Hf); [lia|].
  exists st'. split; [done|]. unfold searchIssues, ok. by rewrite Hf, Hs.
Qed.

Lemma searchIssues_rejected (server : Server JiraIssue) (key : string)
    (startAt maxResults : Z) (st st' : State) (message : string) :
  fetchWithRetry server (SearchRequest key startAt maxResults) 0 st
  = (Rejected message, st') →
  searchIssues server key startAt maxResults st = (None, st').
Proof. intros H. unfold searchIssues. by rewrite H. Qed.

Lemma pages_more (n i : nat) : (S i < pages n)%nat ↔ (50 * S i < n)%nat.
Proof.
  unfold pages. pose proof (Nat.div_mod_eq (n - 1) 50) as Hd.
  pose proof (Nat.mod_upper_bound (n - 1) 50) as Hm. lia.
Qed.

(** The loop on a server that answers every page: from page [i] on. *)
Lemma loop_paged (all : list JiraIssue) (key : string) (limit : option Z) :
  (∀ acc : list JiraIssue, reached limit acc = false) →
  ∀ (fuel i : nat) (st : State),
    (i < pages (length all))%nat → (pages (length all) ≤ i + fuel)%nat →
    ∃ st' : State,
      between st st'
        ((λ j : nat, SearchRequest key (50 * Z.of_nat j) 50)
           <$> seq i (pages (length all) - i)) []
      ∧ getAllIssues_loop (paged_server all) fuel key limit
          (take (50 * i) all) (50 * Z.of_nat i) st
        = (Some all, st').
Proof.
  intros Hlimit fuel. induction fuel as [|fuel IH]; intros i st Hi Hfuel; [lia|].
  destruct (searchIssues_ok (paged_server all) key (50 * Z.of_nat i) st _ eq_refl eq_refl)
    as (st1 & Hb1 & Hs).
  cbn [getAllIssues_loop]. rewrite Hs. cbn [json issues total]. rewrite Hlimit.
  replace (Z.to_nat (50 * Z.of_nat i)) with (50 * i)%nat by lia.
  replace (Z.to_nat 50) with 50%nat by lia.
  rewrite take_take_drop.
  replace (50 * i + 50)%nat with (50 * S i)%nat by lia.
  pose proof (pages_more (length all) i) as Hp.
  destruct (Z.leb_spec (Z.of_nat (length all)) (50 * Z.of_nat i + 50)) as [Hle|Hgt].
  - assert (pages (length all) = S i) as Hpages by lia.
    exists st1. split.
    + rewrite Hpages. by replace (S i - i)%nat with 1%nat by lia.
    + f_equal. f_equal. apply take_ge. lia.
  - destruct (Z.ltb_spec (50 * Z.of_nat i + 50) (Z.of_nat (length all))); [|lia].
    replace (50 * Z.of_nat i + 50) with (50 * Z.of_nat (S i)) by lia.
    destruct (IH (S i) st1) as (st' & Hb & Hres); [lia..|].
    exists st'. split; [|done].
    replace (pages (length all) - i)%nat with (S (pages (length all) - S i)) by lia.
    cbn [seq fmap list_fmap].
    apply (between_trans _ _ _ [_] _ [] [] Hb1 Hb).
Qed.

(** Every collection is fetched whole, in [pages] requests. *)
Lemma getAllIssues_paged (all : list JiraIssue) (key : string) (limit : option Z)
    (fuel : nat) (st : State) :
  (∀ acc : list JiraIssue, reached limit acc = false) →
  (pages (length all) ≤ fuel)%nat →
  ∃ st' : State,
    between st st' (page_requests key (pages (length all))) []
    ∧ getAllIssues (paged_server all) fuel key limit st = (Some all, st').
Proof.
  intros Hlimit Hfuel.
  destruct (loop_paged all key limit Hlimit fuel 0 st) as (st' & Hb & Hres);
    [unfold pages; lia|lia|].
  exists st'. split.
  - unfold page_requests. by rewrite Nat.sub_0_r in Hb.
  - exact Hres.
Qed.

(** A page request that fails ends the loop with what has been
    accumulated. *)
Lemma loop_page_failed (server : Server JiraIssue) (fuel : nat) (key : string)
    (limit : option Z) (acc : list JiraIssue) (startAt : Z) (st st' : State)
    (message : string) :
  fetchWithRetry server (SearchRequest key startAt 50) 0 st = (Rejected message, st') →
  getAllIssues_loop server (S fuel) key limit acc startAt st = (Some acc, st').
Proof.
  intros H. cbn [getAllIssues_loop]. by rewrite (searchIssues_rejected _ _ _ _ _ _ _ H).
Qed.

(** The loop on a server that answers the pages below [bound]: from
    page [i] up to page [bound], which is not the last. *)
Lemma loop_prefix (server : Server JiraIssue) (all : list JiraIssue) (key : string)
    (limit : option Z) (bound : nat) :
  (∀ acc : list JiraIssue, reached limit acc = false) →
  (∀ n j, (j < bound)%nat →
     reply (server n (SearchRequest key (50 * Z.of_nat j) 50))
     = reply (paged_server all n (SearchRequest key (50 * Z.of_nat j) 50))) →
  (bound < pages (length all))%nat →
  ∀ (k i fuel : nat) (st : State),
    (i + k = bound)%nat →
    ∃ st' : State,
      between st st'
        ((λ j : nat, SearchRequest key (50 * Z.of_nat j) 50) <$> seq i k) []
      ∧ getAllIssues_loop server (k + fuel) key limit
          (take (50 * i) all) (50 * Z.of_nat i) st
        = getAllIssues_loop server fuel key limit
            (take (50 * bound) all) (50 * Z.of_nat bound) st'.
Proof.
  intros Hlimit Hserve Hbound k. induction k as [|k IH]; intros i fuel st Hik.
  - exists st. replace i with bound by lia. split; [|done].
    unfold between. cbn. by rewrite !app_nil_r, Nat.add_0_r.
  - destruct (searchIssues_ok server key (50 * Z.of_nat i) st _
                (Hserve (served st) i ltac:(lia)) eq_refl) as (st1 & Hb1 & Hs).
    cbn [Nat.add getAllIssues_loop]. rewrite Hs. cbn [json issues total]. rewrite Hlimit.
    replace (Z.to_nat (50 * Z.of_nat i)) with (50 * i)%nat by lia.
    replace (Z.to_nat 50) with 50%nat by lia.
    rewrite take_take_drop.
    replace (50 * i + 50)%nat with (50 * S i)%nat by lia.
    pose proof (pages_more (length all) i) as Hp.
    destruct (Z.leb_spec (Z.of_nat (length all)) (50 * Z.of_nat i + 50)); [lia|].
    destruct (Z.ltb_spec (50 * Z.of_nat i + 50) (Z.of_nat (length all))); [|lia].
    replace (50 * Z.of_nat i + 50) with (50 * Z.of_nat (S i)) by lia.
    destruct (IH (S i) fuel st1) as (st' & Hb & Hres); [lia|].
    exists st'. split; [|done].
    cbn [seq fmap list_fmap].
    apply (between_trans _ _ _ [_] _ [] [] Hb1 Hb).
Qed.

Lemma reached_None (acc : list JiraIssue) : reached None acc = false.
Proof. done. Qed.

Lemma reached_zero (acc : list JiraIssue) : reached (Some 0) acc = false.
Proof. done. Qed.

(** C5.  On a server that holds a collection and answers every page,
    [getAllIssues] without a cap asks for the pages at the offsets 0,
    50, 100, ... in this order, one request each, and returns the whole
    collection: for 137 items, three requests at 0, 50 and 100 and 137
    items.  When the request for a page fails for good (here: a 4xx
    answer), it returns the items of the pages before it and no
    error. *)
Theorem getAllIssues_pages_to_the_end (all : list JiraIssue) (key : string)
    (fuel : nat) (st : State) :
  (pages (length all) ≤ fuel)%nat →
  (∃ st' : State,
     between st st' (page_requests key (pages (length all))) []
     ∧ getAllIssues (paged_server all) fuel key None st = (Some all, st'))
  ∧ (length all = 137%nat →
     ∃ st' : State,
       between st st'
         [SearchRequest key 0 50; SearchRequest key 50 50; SearchRequest key 100 50] []
       ∧ getAllIssues (paged_server all) fuel key None st = (Some all, st'))
  ∧ (∀ (failure : Response JiraIssue) (b : nat),
       is_client_error failure → network_marked (text failure) = false →
       (b < pages (length all))%nat →
       ∃ st' : State,
         between st st' (page_requests key (S b)) []
         ∧ getAllIssues (failing_from (50 * Z.of_nat b) failure all) fuel key None st
           = (Some (take (50 * b) all), st')).
Proof.
  intros Hfuel. split; [|split].
  - by apply getAllIssues_paged.
  - intros Hlen.
    destruct (getAllIssues_paged all key None fuel st reached_None Hfuel)
      as (st' & Hb & Hres).
    exists st'. split; [|done]. by rewrite Hlen in Hb.
  - intros failure b Hf Hm Hb.
    destruct (loop_prefix (failing_from (50 * Z.of_nat b) failure all) all key None b
                reached_None) with (k := b) (i := 0%nat) (fuel := (fuel - b)%nat) (st := st)
      as (st1 & Hb1 & Hloop); [|done|done|].
    { intros n j Hj. unfold failing_from.
      by destruct (Z.leb_spec (50 * Z.of_nat b) (50 * Z.of_nat j)); [lia|]. }
    destruct (client_error_fails_at_once
                (failing_from (50 * Z.of_nat b) failure all)
                (SearchRequest key (50 * Z.of_nat b) 50) 0 st1 failure)
      as (st2 & Hb2 & Hrej); [|done|done|].
    { unfold failing_from. by rewrite Z.leb_refl. }
    exists st2. split.
    + unfold page_requests. rewrite seq_S, fmap_app. cbn [fmap list_fmap Nat.add].
      apply (between_trans _ _ _ _ _ [] [] Hb1 Hb2).
    + unfold getAllIssues.
      replace fuel with (b + (fuel - b))%nat at 1 by lia.
      change (@nil JiraIssue) with (take (50 * 0) all).
      change 0 with (50 * Z.of_nat 0) at 1. rewrite Hloop.
      replace (fuel - b)%nat with (S (fuel - b - 1)) by lia.
      by apply (loop_page_failed _ _ _ _ _ _ _ _ _ Hrej).
Qed.

(** C6.  With a cap of 60 on a collection of 137 items,
    [getAllIssues] sends the requests for the offsets 0 and 50 and no
    third one, and returns the first 60 items. *)
Theorem getAllIssues_cap_60 (all : list JiraIssue) (key : string)
    (fuel : nat) (st : State) :
  length all = 137%nat → (2 ≤ fuel)%nat →
  ∃ st' : State,
    between st st' [SearchRequest key 0 50; SearchRequest key 50 50] []
    ∧ getAllIssues (paged_server all) fuel key (Some 60) st = (Some (take 60 all), st')
    ∧ length (take 60 all) = 60%nat.
Proof.
  intros Hlen Hfuel. destruct fuel as [|[|fuel]]; [lia..|].
  destruct (searchIssues_ok (paged_server all) key 0 st _ eq_refl eq_refl)
    as (st1 & Hb1 & Hs1).
  destruct (searchIssues_ok (paged_server all) key 50 st1 _ eq_refl eq_refl)
    as (st2 & Hb2 & Hs2).
  exists st2. split; [|split].
  - apply (between_trans _ _ _ [_] [_] [] [] Hb1 Hb2).
  - assert (R1 : reached (Some 60) (take 50 all) = false).
    { unfold reached. by rewrite length_take, Hlen. }
    assert (R2 : reached (Some 60) (take 50 all ++ take 50 (drop 50 all)) = true).
    { unfold reached. by rewrite take_take_drop, length_take, Hlen. }
    unfold getAllIssues. cbn [getAllIssues_loop]. rewrite Hs1.
    cbn [json issues total app].
    change (Z.to_nat 50) with 50%nat. change (Z.to_nat 0) with 0%nat.
    rewrite drop_0, R1, Hlen.
    change (Z.of_nat 137 <=? 0 + 50) with false.
    change (0 + 50 <? Z.of_nat 137) with true.
    change (0 + 50) with 50. cbv iota.
    rewrite Hs2. cbn [json issues total].
    change (Z.to_nat 50) with 50%nat. rewrite R2.
    unfold slice0. cbn [default]. change (0 <=? 60) with true. cbv iota.
    change (Z.to_nat 60) with 60%nat.
    by rewrite take_take_drop, take_take.
  - rewrite length_take, Hlen. done.
Qed.

(** C9.  A cap of 0 is no cap: with [limit = 0], [getAllIssues] does
    what it does with no limit, so that on a server that answers every
    page it returns the whole collection and not the empty list. *)
Theorem zero_cap_is_no_cap (server : Server JiraIssue) (all : list JiraIssue)
    (fuel : nat) (key : string) (st : State) :
  getAllIssues server fuel key (Some 0) st = getAllIssues server fuel key None st
  ∧ ∃ st' : State,
      getAllIssues (paged_server all) (pages (length all)) key (Some 0) st
      = (Some all, st').
Proof.
  split.
  - assert (Hloop : ∀ (acc : list JiraIssue) (startAt : Z) (st0 : State),
               getAllIssues_loop server fuel key (Some 0) acc startAt st0
               = getAllIssues_loop server fuel key None acc startAt st0);
      [|apply Hloop].
    induction fuel as [|fuel IH]; intros acc startAt st0; [done|].
    cbn [getAllIssues_loop].
    destruct (searchIssues server key startAt 50 st0) as [[response|] st1]; [|done].
    rewrite reached_zero, reached_None. by rewrite IH.
  - destruct (getAllIssues_paged all key (Some 0) (pages (length all)) st reached_zero)
      as (st' & _ & Hres); [done|].
    by exists st'.
Qed.

End Paging.

Lemma getAllIssues_pages_to_the_end_witness :
  (∃ st' : State,
     between new_client st'
       [SearchRequest "KAFKA" 0 50; SearchRequest "KAFKA" 50 50;
        SearchRequest "KAFKA" 100 50] []
     ∧ getAllIssues (paged_server issues_137) 3 "KAFKA" None new_client
       = (Some issues_137, st'))
  ∧ (∃ st' : State,
       between new_client st'
         [SearchRequest "KAFKA" 0 50; SearchRequest "KAFKA" 50 50;
          SearchRequest "KAFKA" 100 50] []
       ∧ getAllIssues (failing_from 100 not_found issues_137) 3 "KAFKA" None new_client
         = (Some (take 100 issues_137), st')).
Proof.
  destruct (getAllIssues_pages_to_the_end issues_137 "KAFKA" 3 new_client)
    as (_ & Hall & Hfail).
  - vm_compute. lia.
  - split; [exact (Hall eq_refl)|].
    apply (Hfail not_found 2%nat).
    + split; [cbn; lia|done].
    + reflexivity.
    + vm_compute. lia.
Defined.

Lemma getAllIssues_cap_60_witness :
  ∃ st' : State,
    between new_client st' [SearchRequest "KAFKA" 0 50; SearchRequest "KAFKA" 50 50] []
    ∧ getAllIssues (paged_server issues_137) 2 "KAFKA" (Some 60) new_client
      = (Some (take 60 issues_137), st')
    ∧ length (take 60 issues_137) = 60%nat.
Proof.
  apply (getAllIssues_cap_60 issues_137 "KAFKA" 2 new_client).
  - reflexivity.
  - lia.
Defined.

End ClientFacts.

(** * Further properties of the ledger *)

Module LedgerExtras.
Import Json Ledger LedgerNotions LedgerFacts.

Section Operations.

Variable clock : nat → string.
Variable write_ok : nat → bool.

#[local] Abbreviation step := (step clock write_ok).
#[local] Abbreviation run := (run clock write_ok).

Lemma clear_projects (s : Sys) :
  projects (checkpoint (exec (clear clock write_ok) s)) = ∅.
Proof. by rewrite clear_exec. Qed.

Lemma query_exec (op : Op) (s : Sys) :
  is_clear op = false → target op = None → exec (step op) s = s.
Proof. destruct op; try done; intros _ _; by destruct s. Qed.

(** The document a step leaves: its start time. *)
Lemma step_startTime (op : Op) (s : Sys) :
  is_clear op = false →
  startTime (checkpoint (exec (step op) s)) = startTime (checkpoint s).
Proof.
  intros Hc. destruct op; try done; cbn [Ledger.step].
  - rewrite initProject_exec. destruct (projects (checkpoint s) !! key); [done|].
    by rewrite save_exec.
  - rewrite updateProgress_exec. cbn zeta. rewrite save_exec. cbn.
    rewrite initProject_exec. destruct (projects (checkpoint s) !! key); [done|].
    by rewrite save_exec.
  - rewrite markProjectCompleted_exec.
    destruct (projects (checkpoint s) !! key); [|done]. by rewrite save_exec.
Qed.

Lemma run_frame (key : string) (ops : list Op) (s : Sys) :
  existsb is_clear ops = false →
  existsb (λ op, bool_decide (target op = Some key)) ops = false →
  record_of key (run ops s) = record_of key s
  ∧ startTime (checkpoint (run ops s)) = startTime (checkpoint s).
Proof.
  revert s. induction ops as [|op ops IH]; intros s Hc Ht; [done|].
  cbn [existsb] in *. apply orb_false_elim in Hc as [Hc1 Hc].
  apply orb_false_elim in Ht as [Ht1 Ht]. apply bool_decide_eq_false in Ht1.
  cbn [Ledger.run]. destruct (IH (exec (step op) s) Hc Ht) as [-> ->].
  split; [|by apply step_startTime].
  rewrite step_record_of by done.
  destruct op; try done; cbn in Ht1; case_bool_decide; congruence.
Qed.

(** X1.  Operations on one collection leave the others alone.  Across a
    sequence of operations without [clear], the record of a collection
    that no operation of the sequence names is what it was (or is still
    missing), and the start time of the document does not move. *)
Theorem other_collections_untouched (key : string) (ops : list Op) (s : Sys) :
  existsb is_clear ops = false →
  existsb (λ op, bool_decide (target op = Some key)) ops = false →
  record_of key (run ops s) = record_of key s
  ∧ startTime (checkpoint (run ops s)) = startTime (checkpoint s).
Proof. apply run_frame. Qed.

(** X2.  [markProjectCompleted] completes a record and never makes one.
    After it, [isProjectCompleted] answers whether the collection has a
    record; the record keeps its other five fields; a collection
    without a record still has none. *)
Theorem markProjectCompleted_needs_a_record (key : string) (s : Sys) :
  let s' := exec (markProjectCompleted clock write_ok key) s in
  eval (isProjectCompleted key) s' = bool_decide (is_Some (record_of key s))
  ∧ record_of key s' = set_completed true <$> record_of key s
  ∧ eval (getLastIndex key) s' = eval (getLastIndex key) s.
Proof.
  cbn zeta.
  pose proof (step_record_of clock write_ok key (MarkProjectCompleted key) s eq_refl) as H.
  cbn [Ledger.step] in H. rewrite bool_decide_eq_true_2 in H by done.
  rewrite eval_isProjectCompleted, !eval_getLastIndex, H.
  by destruct (record_of key s) as [r|].
Qed.

Lemma step_keys_agree (op : Op) (s : Sys) :
  keys_agree s → keys_agree (exec (step op) s).
Proof.
  intros Hs k r. destruct (is_clear op) eqn:Hc.
  - destruct op; try done; cbn [Ledger.step]; unfold record_of;
      by rewrite clear_projects, lookup_empty.
  - rewrite step_record_of by done. specialize (Hs k).
    destruct op; try apply Hs; case_bool_decide; try apply Hs; subst;
      destruct (record_of k s) as [r0|]; cbn; intros [= <-]; try done.
    all: cbn; by apply Hs.
Qed.

(** X3.  Every record is stored under the name it carries, and every
    operation keeps it so: in a ledger where the [projectKey] field of
    each record is the key of its entry, this is still the case after
    any sequence of operations. *)
Theorem keys_agree_kept (ops : list Op) (s : Sys) :
  keys_agree s → keys_agree (run ops s).
Proof.
  revert s. induction ops as [|op ops IH]; intros s Hs; [done|].
  cbn [Ledger.run]. by apply IH, step_keys_agree.
Qed.

Lemma run_processed (key : string) (ops : list Op) (s : Sys) :
  existsb is_clear ops = false →
  processed_of key (run ops s) = processed_of key s + count_updates key ops.
Proof.
  revert s. induction ops as [|op ops IH]; intros s Hc; [cbn; lia|].
  cbn [existsb] in Hc. apply orb_false_elim in Hc as [Hc1 Hc].
  cbn [Ledger.run count_updates]. rewrite IH by done.
  enough (processed_of key (exec (step op) s)
          = processed_of key s + (if updates key op then 1 else 0)) by lia.
  unfold processed_of. rewrite step_record_of by done.
  destruct op; cbn [updates]; try lia; case_bool_decide;
    destruct (record_of key s); cbn; lia.
Qed.

Lemma run_last_supplied (key : string) (ops : list Op) (s : Sys) :
  existsb is_clear ops = false →
  eval (getLastIndex key) (run ops s)
  = last_supplied key ops (eval (getLastIndex key) s).
Proof.
  revert s. induction ops as [|op ops IH]; intros s Hc; [done|].
  cbn [existsb] in Hc. apply orb_false_elim in Hc as [Hc1 Hc].
  cbn [Ledger.run last_supplied]. rewrite IH, step_getLastIndex by done.
  by destruct op.
Qed.

(** X4.  The processed count counts the calls of [updateProgress].
    Across a sequence of operations without [clear], the count of a
    collection grows by the number of [updateProgress] calls for it,
    starting from 0 where the collection had no record. *)
Theorem processed_count_counts_updates (key : string) (ops : list Op) (s : Sys) :
  existsb is_clear ops = false →
  processed_of key (run ops s) = processed_of key s + count_updates key ops.
Proof. apply run_processed. Qed.

(** An operation leaves the state as it was or ends in [save]. *)
Lemma step_ends_in_save (op : Op) (s : Sys) :
  exec (step op) s = s ∨ ∃ t : Sys, exec (step op) s = exec (save clock write_ok) t.
Proof.
  destruct op; cbn [Ledger.step]; try (left; by destruct s).
  - rewrite initProject_exec. destruct (projects (checkpoint s) !! key); eauto.
  - right. rewrite updateProgress_exec. eauto.
  - rewrite markProjectCompleted_exec. destruct (projects (checkpoint s) !! key); eauto.
  - right. rewrite clear_exec. eauto.
Qed.

(** X5.  What an operation has written is what a restart finds.  When an
    operation has written to the disk and its last write succeeded, a
    ledger constructed afterwards holds the very document the first
    ledger holds in memory, so that every query answers alike. *)
Theorem progress_survives_restart (clock' : nat → string) (op : Op) (s : Sys) :
  let s' := exec (step op) s in
  writes (world s') ≠ writes (world s) →
  write_ok (Nat.pred (writes (world s'))) = true →
  after_restart clock' s' = Some s'.
Proof.
  cbn zeta. intros Hw Hok.
  assert (Hp : persisted (exec (step op) s)).
  { destruct (step_ends_in_save op s) as [Heq|[t Heq]]; [by rewrite Heq in Hw|].
    rewrite Heq in *. rewrite save_exec in *. cbn in *. unfold persisted. cbn.
    by rewrite Hok. }
  by apply constructed_on_persisted.
Qed.

(** X6.  [clear] forgets everything.  After it no collection has a
    record, so [getLastIndex] is -1 and [isProjectCompleted] is false
    for every name, the summary is empty, the document has a new start
    time, and, when the write succeeded, a restart finds this empty
    document. *)
Theorem clear_forgets_everything (clock' : nat → string) (s : Sys) :
  let s' := exec (clear clock write_ok) s in
  (∀ key : string,
     record_of key s' = None
     ∧ eval (getLastIndex key) s' = -1
     ∧ eval (isProjectCompleted key) s' = false)
  ∧ eval getSummary s' = mkSummary 0 0 0 []
  ∧ startTime (checkpoint s') = clock (dates (world s))
  ∧ if write_ok (writes (world s)) then after_restart clock' s' = Some s' else True.
Proof.
  cbn zeta. split; [|split; [|split]].
  - intros key. rewrite eval_getLastIndex, eval_isProjectCompleted. unfold record_of.
    by rewrite clear_projects, lookup_empty.
  - unfold eval, getSummary, gets. cbn. by rewrite clear_projects, map_to_list_empty.
  - by rewrite clear_exec.
  - destruct (write_ok (writes (world s))) eqn:Hok; [|done].
    unfold after_restart. rewrite clear_exec. cbn zeta.
    by apply constructed_on_persisted, save_persists.
Qed.

(** X7.  A ledger that finds no file, or a file it cannot read or parse,
    starts empty and writes nothing: no collection has a record, the
    document bears the time of the construction, and the disk and the
    count of writes are as they were, except that a missing checkpoint
    directory has been created, empty.  When the directory is missing
    and cannot be created, the constructor fails: there is no ledger. *)
Theorem load_failure_starts_empty (w : World) :
  match disk w with
  | NoDirectory false => new_CheckpointManager clock w = None
  | NoDirectory true => starts_empty clock w (Directory None)
  | Directory None => starts_empty clock w (Directory None)
  | Directory (Some Unparsable) => starts_empty clock w (Directory (Some Unparsable))
  | Directory (Some (Document _)) => True
  end.
Proof.
  unfold starts_empty, new_CheckpointManager, existsSync_dir, mkdirSync, load, file.
  destruct (disk w) as [[|]|[[|j]|]] eqn:E; cbn; rewrite ?E; try done;
    (eexists; split; [done|]; cbn; repeat split; done).
Qed.

(** The three numbers of the summary do not depend on the order in
    which the records are listed. *)
Lemma foldl_sum_perm (g : CheckpointState → Z) (l1 l2 : list CheckpointState) (a : Z) :
  l1 ≡ₚ l2 →
  foldl (λ sum p, sum + g p) a l1 = foldl (λ sum p, sum + g p) a l2.
Proof.
  intros Hp. revert a. induction Hp as [|x l1 l2 _ IH|x y l|l1 l2 l3 _ IH1 _ IH2];
    intros a; cbn.
  - done.
  - apply IH.
  - by replace (a + g y + g x) with (a + g x + g y) by lia.
  - by rewrite IH1.
Qed.

Lemma foldl_sum_shift (g : CheckpointState → Z) (l : list CheckpointState) (a b : Z) :
  foldl (λ sum p, sum + g p) (a + b) l = foldl (λ sum p, sum + g p) a l + b.
Proof.
  revert a. induction l as [|x l IH]; intros a; cbn; [done|].
  replace (a + b + g x) with (a + g x + b) by lia. apply IH.
Qed.

(** The records of a document in which [key] holds [r], up to order. *)
Lemma records_with (m : gmap string CheckpointState) (key : string)
    (r : CheckpointState) :
  m !! key = Some r →
  (map_to_list m).*2 ≡ₚ r :: (map_to_list (delete key m)).*2.
Proof.
  intros H. rewrite <- (map_to_list_delete m key r H). by rewrite fmap_cons.
Qed.

(** X8.  Each [updateProgress] shows in the summary as one more issue
    processed: the total of [getSummary] grows by exactly 1, the number
    of projects grows by 1 when the collection was new and is unchanged
    otherwise, and the number of completed projects does not move. *)
Theorem summary_after_updateProgress (key issueKey : string) (issueIndex : Z)
    (s : Sys) :
  let before := eval getSummary s in
  let after := eval getSummary (exec (updateProgress clock write_ok key issueKey issueIndex) s) in
  summaryIssuesProcessed after = summaryIssuesProcessed before + 1
  ∧ totalProjects after
    = totalProjects before + match record_of key s with Some _ => 0 | None => 1 end
  ∧ completedProjects after = completedProjects before.
Proof.
  cbn zeta. unfold eval, getSummary, gets. cbn.
  rewrite updateProgress_projects. cbn zeta. rewrite initProject_projects.
  set (t := clock (dates (world (exec (initProject clock write_ok key) s)))).
  set (m := projects (checkpoint s)). unfold record_of. fold m.
  destruct (m !! key) as [r|] eqn:E.
  - assert (Ha : alter (progressed issueKey issueIndex t) key m !! key
                 = Some (progressed issueKey issueIndex t r)).
    { by rewrite lookup_alter_eq, E. }
    pose proof (records_with _ key _ Ha) as Hafter.
    pose proof (records_with _ key _ E) as Hbefore.
    rewrite delete_alter_eq in Hafter.
    rewrite (foldl_sum_perm _ _ _ 0 Hafter), (foldl_sum_perm _ _ _ 0 Hbefore).
    rewrite Hafter, Hbefore. cbn [foldl length progressed totalIssuesProcessed].
    rewrite !filter_cons. cbn [completed progressed].
    split; [|split].
    + rewrite <- foldl_sum_shift. f_equal; lia.
    + lia.
    + by destruct (decide (completed r = true)).
  - rewrite alter_insert_eq.
    assert (Hafter : (map_to_list (<[key := progressed issueKey issueIndex t
                        (mkCheckpointState key "" (-1) 0 (clock (dates (world s))) false)]> m)).*2
                     ≡ₚ progressed issueKey issueIndex t
                          (mkCheckpointState key "" (-1) 0 (clock (dates (world s))) false)
                        :: (map_to_list m).*2).
    { rewrite map_to_list_insert by done. by rewrite fmap_cons. }
    rewrite (foldl_sum_perm _ _ _ 0 Hafter). rewrite Hafter.
    cbn [foldl length progressed totalIssuesProcessed].
    rewrite filter_cons. cbn [completed progressed].
    split; [|split].
    + change (0 + (0 + 1)) with (0 + 1). by rewrite foldl_sum_shift.
    + lia.
    + done.
Qed.

(** X9.  The summary never reports more completed projects than
    projects, and both numbers are counts. *)
Theorem summary_completed_at_most_total (s : Sys) :
  0 ≤ completedProjects (eval getSummary s) ≤ totalProjects (eval getSummary s)
  ∧ totalProjects (eval getSummary s) = Z.of_nat (size (projects (checkpoint s))).
Proof.
  unfold eval, getSummary, gets. cbn. split.
  - pose proof (length_filter (λ p : CheckpointState, completed p = true)
                  (map_to_list (projects (checkpoint s))).*2). lia.
  - by rewrite length_fmap, length_map_to_list.
Qed.

End Operations.

Lemma other_collections_untouched_witness :
  record_of "X" (run sample_clock disk_ok Samples.ops_elsewhere sample_completed)
  = record_of "X" sample_completed
  ∧ startTime (checkpoint (run sample_clock disk_ok Samples.ops_elsewhere sample_completed))
    = startTime (checkpoint sample_completed).
Proof.
  apply (other_collections_untouched sample_clock disk_ok "X" Samples.ops_elsewhere
           sample_completed); reflexivity.
Defined.

Lemma keys_agree_kept_witness :
  keys_agree (run sample_clock disk_ok Samples.ops_with_two_updates
                (fresh_ledger sample_clock)).
Proof.
  apply (keys_agree_kept sample_clock disk_ok Samples.ops_with_two_updates
           (fresh_ledger sample_clock)).
  intros k r H. unfold record_of in H. cbn in H. by rewrite lookup_empty in H.
Defined.

Lemma processed_count_counts_updates_witness :
  processed_of "X" (run sample_clock disk_ok Samples.ops_with_two_updates sample_completed)
  = processed_of "X" sample_completed + 2.
Proof.
  apply (processed_count_counts_updates sample_clock disk_ok "X"
           Samples.ops_with_two_updates sample_completed).
  reflexivity.
Defined.

Lemma progress_survives_restart_witness :
  let s' := exec (step sample_clock disk_ok (UpdateProgress "X" "X-20" 19))
              sample_completed in
  after_restart sample_clock s' = Some s'.
Proof.
  apply (progress_survives_restart sample_clock disk_ok sample_clock
           (UpdateProgress "X" "X-20" 19) sample_completed).
  - vm_compute. lia.
  - reflexivity.
Defined.

End LedgerExtras.

(** * Further properties of the fetch client *)

Module ClientExtras.
Import Client ClientNotions ClientFacts.

Section Retry.

Context {JiraIssue : Type}.
Variable server : Server JiraIssue.

Lemma fetch_rateLimit_count (url : Request) (st : State) :
  requestCount (fetch server url (rateLimit st)).2 = requestCount st + 1.
Proof. unfold fetch, rateLimit, sleep. cbn. by case_match. Qed.

Section OneRequest.

Variables (url : Request) (retryCount : nat) (st st2 : State).
Hypothesis Hfetch :
  fetch server url (rateLimit st) = (reply (server (served st) url), st2).

Lemma after_fetch :
  between st st2 [url] [] ∧ requestCount st2 = requestCount st + 1
  ∧ ∀ w, between st (sleep (Backoff w) w st2) [url] [w].
Proof.
  pose proof (fetch_rateLimit_count url st) as Hcount. rewrite Hfetch in Hcount.
  destruct (fetch_then_backoff server url st None) as (st3 & Hf3 & Hb & _).
  rewrite Hfetch in Hf3. injection Hf3 as <-.
  split; [exact Hb|]. split; [done|].
  intros w. destruct (fetch_then_backoff server url st w) as (st3 & Hf3 & _ & Hb3).
  rewrite Hfetch in Hf3. by injection Hf3 as <-.
Qed.

Lemma one_request_rejected (message : string) :
  one_request server url retryCount st (Settled (Rejected message) st2).
Proof.
  destruct after_fetch as (Hb & Hc & _). exists st2, [].
  repeat split; [apply Hb..|cbn; lia|done|]. right. by eexists.
Qed.

Lemma one_request_waited (w : option Z) (message : string) :
  one_request server url retryCount st
    (if (retryCount <? maxRetries)%nat then Again (sleep (Backoff w) w st2)
     else Settled (Rejected message) (sleep (Backoff w) w st2)).
Proof.
  destruct after_fetch as (_ & Hc & Hbw). exists (sleep (Backoff w) w st2), [w].
  repeat split; [apply Hbw..|cbn; lia|done|].
  destruct (Nat.ltb_spec retryCount maxRetries); [by left|]. right. by eexists.
Qed.

Lemma one_request_on_error (message : string) :
  one_request server url retryCount st (on_error retryCount message st2).
Proof.
  unfold on_error.
  destruct (includes "fetch failed" message || includes "network" message).
  - apply one_request_waited.
  - apply one_request_rejected.
Qed.

Lemma one_request_waited_on_error (w : option Z) (message : string) :
  network_marked message = false →
  one_request server url retryCount st
    (if (retryCount <? maxRetries)%nat then Again (sleep (Backoff w) w st2)
     else on_error retryCount message (sleep (Backoff w) w st2)).
Proof.
  intros Hm. rewrite on_error_unmarked by done. apply one_request_waited.
Qed.

End OneRequest.

(** Every activation of [fetchWithRetry] is of this shape. *)
Lemma attempt_shape (url : Request) (retryCount : nat) (st : State) :
  one_request server url retryCount st (attempt server url retryCount st).
Proof.
  destruct (fetch_then_backoff server url st None) as (st2 & Hf & Hb & _).
  unfold attempt. rewrite Hf.
  destruct (reply (server (served st) url)) as [r|message] eqn:Hr;
    rewrite <- ?Hr in *; [|by apply one_request_on_error].
  destruct (Z.eqb_spec (status r) 429).
  { by apply one_request_waited_on_error. }
  destruct ((500 <=? status r) && (status r <? 600)) eqn:H5.
  { apply one_request_waited_on_error; [done|].
    apply andb_prop in H5 as [H5a H5b]. apply Z.leb_le in H5a. apply Z.ltb_lt in H5b.
    by apply server_error_message_unmarked. }
  destruct ((400 <=? status r) && (status r <? 500)) eqn:H4.
  { by apply one_request_on_error. }
  destruct (after_fetch url st st2 Hf) as (Hb' & Hc & _). exists st2, [].
  repeat split; [apply Hb..|cbn; lia|done|]. right. eexists. split; [done|].
  intros r' [= <-]. split; [by rewrite Hr|].
  apply andb_false_iff in H5, H4. lia.
Qed.

(** A logical request, from any [retryCount]. *)
Lemma fetchWithRetry_shape (k : nat) :
  ∀ (retryCount : nat) (url : Request) (st : State),
    (maxRetries - retryCount ≤ k)%nat →
    ∃ (n : nat) (ws : list (option Z)),
      (1 ≤ n ≤ S (maxRetries - retryCount))%nat
      ∧ between st (fetchWithRetry server url retryCount st).2 (replicate n url) ws
      ∧ (length ws ≤ n)%nat
      ∧ requestCount (fetchWithRetry server url retryCount st).2
        = requestCount st + Z.of_nat n
      ∧ ∀ r, (fetchWithRetry server url retryCount st).1 = Resolved r →
             (∃ m : nat, reply (server m url) = Responds r)
             ∧ (status r < 400 ∨ 600 ≤ status r).
Proof.
  assert (Hend : ∀ rc url st st1 ws1 o,
            between st st1 [url] ws1 → (length ws1 ≤ 1)%nat →
            requestCount st1 = requestCount st + 1 →
            (∀ r, o = Resolved r →
                  reply (server (served st) url) = Responds r
                  ∧ (status r < 400 ∨ 600 ≤ status r)) →
            ∃ (n : nat) (ws : list (option Z)),
              (1 ≤ n ≤ S (maxRetries - rc))%nat
              ∧ between st st1 (replicate n url) ws
              ∧ (length ws ≤ n)%nat
              ∧ requestCount st1 = requestCount st + Z.of_nat n
              ∧ ∀ r, o = Resolved r →
                     (∃ m : nat, reply (server m url) = Responds r)
                     ∧ (status r < 400 ∨ 600 ≤ status r)).
  { intros rc url st st1 ws1 o Hb1 Hl1 Hc1 Ho. exists 1%nat, ws1.
    split; [lia|]. split; [exact Hb1|]. split; [lia|]. split; [lia|].
    intros r Hr. destruct (Ho r Hr). eauto. }
  induction k as [|k IH]; intros rc url st Hk;
    rewrite fetchWithRetry_unfold;
    destruct (attempt_shape url rc st) as (st1 & ws1 & Hb1 & Hl1 & Hc1 & Hcase);
    destruct Hcase as [[-> Hlt]|(o & -> & Ho)]; try (exfalso; lia); cbn [fst snd];
    try (by eapply Hend; eauto).
  destruct (IH (S rc) url st1) as (n & ws & Hn & Hb & Hl & Hc & Hr); [lia|].
  exists (S n), (ws1 ++ ws).
  split; [lia|]. split; [apply (between_trans _ _ _ [url] _ _ _ Hb1 Hb)|].
  split; [rewrite length_app; lia|]. split; [lia|]. exact Hr.
Qed.


(** A response that is returned is what the last request of the call
    was answered. *)
Lemma resolved_by_last_request (k : nat) :
  ∀ (retryCount : nat) (url : Request) (st st' : State) (r : Response JiraIssue),
    (maxRetries - retryCount ≤ k)%nat →
    fetchWithRetry server url retryCount st = (Resolved r, st') →
    (∃ m : nat,
       (served st ≤ m)%nat ∧ served st' = S m ∧ reply (server m url) = Responds r)
    ∧ (status r < 400 ∨ 600 ≤ status r).
Proof.
  induction k as [|k IH]; intros rc url st st' r Hk;
    rewrite fetchWithRetry_unfold;
    destruct (attempt_shape url rc st) as (st1 & ws1 & Hb1 & _ & _ & Hcase);
    destruct Hb1 as (Hs1 & _);
    destruct Hcase as [[-> Hlt]|(o & -> & Ho)]; try (exfalso; lia).
  - intros [= -> <-]. destruct (Ho r eq_refl) as [Hr Hs]. split; [|done].
    exists (served st). rewrite Hs1. cbn. split; [lia|]. split; [lia|done].
  - intros Hf. destruct (IH (S rc) url st1 st' r) as [(m & Hm & Hs' & Hr) Hs]; [lia|done|].
    split; [|done]. exists m. rewrite Hs1 in Hm. cbn in Hm. split; [lia|done].
  - intros [= -> <-]. destruct (Ho r eq_refl) as [Hr Hs]. split; [|done].
    exists (served st). rewrite Hs1. cbn. split; [lia|]. split; [lia|done].
Qed.

(** X11.  What [fetchWithRetry] returns is an answer of the server that is
    no error: a response it resolves with is what the server answered
    to the last request of this call (the [m]-th request the server has
    received, none having followed it), and its status is neither 429
    nor any other 4xx nor 5xx. *)
Theorem returned_response_is_no_error (url : Request) (st st' : State)
    (r : Response JiraIssue) :
  fetchWithRetry server url 0 st = (Resolved r, st') →
  (∃ m : nat,
     (served st ≤ m)%nat ∧ served st' = S m ∧ reply (server m url) = Responds r)
  ∧ (status r < 400 ∨ 600 ≤ status r).
Proof. apply (resolved_by_last_request maxRetries). lia. Qed.

(** X12.  [searchIssues] gives a page only from a 2xx answer: what it
    returns is the parsed body of the response that the server gave to
    the last request of this call, for this very page, with a status
    from 200 to 299. *)
Theorem searchIssues_page_is_from_the_server (key : string) (startAt maxResults : Z)
    (st st' : State) (j : JiraSearchResponse JiraIssue) :
  searchIssues server key startAt maxResults st = (Some j, st') →
  ∃ (m : nat) (r : Response JiraIssue),
    (served st ≤ m)%nat ∧ served st' = S m
    ∧ reply (server m (SearchRequest key startAt maxResults)) = Responds r
    ∧ 200 ≤ status r ≤ 299 ∧ json r = Some j.
Proof.
  unfold searchIssues.
  destruct (fetchWithRetry server (SearchRequest key startAt maxResults) 0 st)
    as [[r|message] st1] eqn:Hf; [|done].
  destruct (resolved_by_last_request maxRetries 0 _ st st1 r ltac:(lia) Hf)
    as [(m & Hm & Hs & Hr) _].
  unfold ok. destruct (Z.leb_spec 200 (status r)), (Z.leb_spec (status r) 299);
    cbn [andb]; try done.
  intros [= Hj <-]. exists m, r. repeat split; try done; lia.
Qed.

(** A reaction that is retried: the round, then the next attempt or the
    failure. *)
Lemma retried_step (url : Request) (retryCount : nat) (st : State)
    (x : Reply JiraIssue) :
  reply (server (served st) url) = x → retried x →
  (retryCount ≤ maxRetries)%nat →
  ∃ st' : State,
    round server url (retry_wait retryCount x) st st'
    ∧ attempt server url retryCount st
      = if (retryCount <? maxRetries)%nat then Again st'
        else Settled (Rejected (exhausted_by x)) st'.
Proof.
  intros Hx Hr Hrc. destruct x as [r|message]; cbn [retried retry_wait exhausted_by] in *.
  - destruct Hr as [[Hs Hh]|H5].
    + rewrite Hs. cbn [Z.eqb Pos.eqb]. by apply attempt_429.
    + assert ((status r =? 429) = false) as -> by (unfold is_5xx in H5; lia).
      by apply attempt_5xx.
  - pose proof (exponential_in_range retryCount Hrc) as Hexp.
    destruct (fetch_then_wait server url st (exponential retryCount))
      as (st2 & Hf & Hround); [lia|].
    eexists. split; [exact Hround|]. unfold attempt. rewrite Hf, Hx. unfold on_error.
    fold (network_marked message). by rewrite Hr.
Qed.

Lemma reacts_lookup (n : nat) (url : Request) (xs : list (Reply JiraIssue)) :
  reacts server n url xs →
  ∀ i x, xs !! i = Some x → reply (server (n + i)%nat url) = x.
Proof.
  revert n. induction xs as [|x0 xs IH]; intros n Ha i x Hi; [done|].
  destruct Ha as [H0 Ha]. destruct i as [|i]; cbn in Hi.
  - injection Hi as <-. by rewrite Nat.add_0_r.
  - replace (n + S i)%nat with (S n + i)%nat by lia. by apply IH.
Qed.

(** A run of reactions that are all retried. *)
Lemma reaction_chain (xs : list (Reply JiraIssue)) (url : Request) (st : State) :
  reacts server (served st) url xs → Forall retried xs →
  (length xs ≤ S maxRetries)%nat →
  ∃ st' : State,
    rounds server url (imap retry_wait xs) st st'
    ∧ served st' = (served st + length xs)%nat
    ∧ if decide (length xs ≤ maxRetries)%nat then
        fetchWithRetry server url 0 st = fetchWithRetry server url (length xs) st'
      else
        ∃ x, last xs = Some x
             ∧ fetchWithRetry server url 0 st = (Rejected (exhausted_by x), st').
Proof.
  intros Ha Hg Hlen.
  apply (retry_chain server id retried retry_wait exhausted_by retried_step
           xs url 0%nat st (reacts_lookup _ _ _ Ha) Hg); [unfold maxRetries; lia|done].
Qed.

Lemma reacts_app (n : nat) (url : Request) (xs ys : list (Reply JiraIssue)) :
  reacts server n url (xs ++ ys) →
  reacts server n url xs ∧ reacts server (n + length xs) url ys.
Proof.
  revert n. induction xs as [|x xs IH]; intros n H; cbn in *.
  - by rewrite Nat.add_0_r.
  - destruct H as [Hx H]. destruct (IH _ H) as [H1 H2]. repeat split; try done.
    by replace (n + S (length xs))%nat with (S n + length xs)%nat by lia.
Qed.

(** An answer that is neither 429 nor 4xx nor 5xx is returned when it
    has arrived, without a wait. *)
Lemma returned_when_answered (url : Request) (retryCount : nat) (st : State)
    (r : Response JiraIssue) :
  reply (server (served st) url) = Responds r →
  status r < 400 ∨ 600 ≤ status r →
  ∃ st' : State,
    requested server url st st'
    ∧ fetchWithRetry server url retryCount st = (Resolved r, st').
Proof.
  intros Hr Hs.
  destruct (fetch_requested server url st) as (st2 & Hf & Hreq).
  exists st2. split; [done|].
  rewrite fetchWithRetry_unfold. unfold attempt. rewrite Hf, Hr.
  destruct (Z.eqb_spec (status r) 429); [lia|].
  destruct (Z.leb_spec 500 (status r)), (Z.ltb_spec (status r) 600),
    (Z.leb_spec 400 (status r)), (Z.ltb_spec (status r) 500); cbn [andb]; try lia; done.
Qed.

(** X13.  The retries of one logical request are one budget.  Answers of
    429 (whose [Retry-After], if any, is a number of seconds for which
    a timer can be set), answers of 5xx and failures of [fetch] that
    bear a mark of the network count against the same [maxRetries = 3]:
    on four such reactions in a row, of whatever kinds, the client goes
    through four rounds, in each of which it sends the request and,
    when the reaction has arrived, waits the time that belongs to the
    reaction before it goes on; then it fails with the error of the
    last one, a failure of [fetch] being handed on with its own
    message. *)
Theorem failures_share_one_budget (url : Request) (st : State)
    (xs : list (Reply JiraIssue)) :
  reacts server (served st) url xs → Forall retried xs →
  length xs = S maxRetries →
  ∃ (st' : State) (x : Reply JiraIssue),
    last xs = Some x
    ∧ fetchWithRetry server url 0 st = (Rejected (exhausted_by x), st')
    ∧ rounds server url (imap retry_wait xs) st st'.
Proof.
  intros Ha Hg Hlen.
  destruct (reaction_chain xs url st Ha Hg) as (st' & Hrounds & _ & Hres); [lia|].
  rewrite Hlen in Hres. rewrite decide_False in Hres by lia.
  destruct Hres as (x & Hl & Hres). by exists st', x.
Qed.

(** X14.  The client gets through when the server recovers.  After up to
    three reactions that are retried (429 whose [Retry-After], if any,
    is a number of seconds for which a timer can be set, 5xx, a failure
    of [fetch] that bears a mark of the network), each with its round
    of request and wait, an answer whose status is outside 400-599 is
    returned as it is, when it has arrived and without a further
    wait. *)
Theorem recovers_when_the_server_does (url : Request) (st : State)
    (xs : list (Reply JiraIssue)) (r : Response JiraIssue) :
  reacts server (served st) url (xs ++ [Responds r]) → Forall retried xs →
  (length xs ≤ maxRetries)%nat →
  status r < 400 ∨ 600 ≤ status r →
  ∃ st1 st' : State,
    rounds server url (imap retry_wait xs) st st1
    ∧ requested server url st1 st'
    ∧ fetchWithRetry server url 0 st = (Resolved r, st').
Proof.
  intros Ha Hg Hlen Hs. apply reacts_app in Ha as [Ha [Hr _]].
  destruct (reaction_chain xs url st Ha Hg) as (st1 & Hrounds & Hs1 & Hres); [lia|].
  rewrite decide_True in Hres by done. rewrite <- Hs1 in Hr.
  destruct (returned_when_answered url (length xs) st1 r Hr Hs) as (st' & Hreq & Hret).
  exists st1, st'. split; [done|]. split; [done|]. by rewrite Hres.
Qed.

(** X15.  A failure of [fetch] without a mark of the network is final.
    When [fetch] fails with a message that contains neither "fetch
    failed" nor "network", the client does not wait and does not try
    again: it fails with this message after the one request. *)
Theorem unmarked_failure_is_not_retried (url : Request) (st : State)
    (message : string) :
  reply (server (served st) url) = Throws message →
  network_marked message = false →
  ∃ st' : State,
    fetchWithRetry server url 0 st = (Rejected message, st')
    ∧ between st st' [url] [].
Proof.
  intros Hx Hm.
  destruct (fetch_then_backoff server url st None) as (st2 & Hf & Hb & _).
  exists st2. split; [|done].
  rewrite fetchWithRetry_unfold. unfold attempt. rewrite Hf, Hx.
  by rewrite on_error_unmarked.
Qed.

(** X16.  A [Retry-After] that is not a number gives no wait to speak of.
    On a 429 whose [Retry-After] header is not empty and does not start
    with a number (the date form of the header), the wait handed to the
    timer is NaN, which the timer takes for 1 ms; the client tries
    again all the same while it has retries left. *)
Theorem retry_after_date_is_no_delay (url : Request) (retryCount : nat) (st : State)
    (r : Response JiraIssue) (c : ascii) (rest : string) :
  reply (server (served st) url) = Responds r →
  status r = 429 → retryAfter r = Some (String c rest) →
  parseInt (String c rest) = None →
  (retryCount < maxRetries)%nat →
  ∃ st' : State,
    fetchWithRetry server url retryCount st
    = fetchWithRetry server url (S retryCount) st'
    ∧ between st st' [url] [None]
    ∧ timer None = 1.
Proof.
  intros Hx Hs Hh Hp Hlt.
  destruct (fetch_then_backoff server url st None) as (st2 & Hf & _ & Hb).
  exists (sleep (Backoff None) None st2). split; [|done].
  rewrite fetchWithRetry_unfold. unfold attempt. rewrite Hf, Hx, Hs, Hh, Hp.
  cbn [Z.eqb Pos.eqb fmap option_fmap option_map].
  by destruct (Nat.ltb_spec retryCount maxRetries); [|lia].
Qed.

End Retry.

Section Paging.

Context {JiraIssue : Type}.
Variable server : Server JiraIssue.

(** One page request, whatever the server does. *)
Lemma searchIssues_shape (key : string) (startAt maxResults : Z) (st : State) :
  ∃ (n : nat) (ws : list (option Z)),
    (1 ≤ n ≤ 4)%nat
    ∧ between st (searchIssues server key startAt maxResults st).2
        (replicate n (SearchRequest key startAt maxResults)) ws
    ∧ requestCount (searchIssues server key startAt maxResults st).2
      = requestCount st + Z.of_nat n
    ∧ ∀ j, (searchIssues server key startAt maxResults st).1 = Some j →
           ∃ (m : nat) (r : Response JiraIssue),
             reply (server m (SearchRequest key startAt maxResults)) = Responds r
             ∧ 200 ≤ status r ≤ 299 ∧ json r = Some j.
Proof.
  destruct (fetchWithRetry_shape server maxRetries 0 (SearchRequest key startAt maxResults) st)
    as (n & ws & Hn & Hb & _ & Hc & Hr); [lia|].
  exists n, ws. unfold maxRetries in Hn. unfold searchIssues.
  destruct (fetchWithRetry server (SearchRequest key startAt maxResults) 0 st)
    as [[r|message] st1] eqn:Hf; cbn [fst snd] in *.
  - destruct (Hr r eq_refl) as [[m Hm] _]. unfold ok.
    destruct (Z.leb_spec 200 (status r)), (Z.leb_spec (status r) 299);
      cbn [andb fst snd]; (split; [lia|]); (split; [done|]); (split; [done|]);
      try done.
    intros j Hj. exists m, r. repeat split; try done; lia.
  - split; [lia|]. split; [done|]. by split.
Qed.

(** The loop, whatever the server does: from the page at [50 * i]. *)
Lemma loop_shape (key : string) (limit : option Z) (fuel : nat) :
  ∀ (i : nat) (acc : list JiraIssue) (st : State),
    ∃ ns : list nat,
      (length ns ≤ fuel)%nat
      ∧ Forall (λ n, 1 ≤ n ≤ 4)%nat ns
      ∧ fetches (trace (getAllIssues_loop server fuel key limit acc
                          (50 * Z.of_nat i) st).2)
        = fetches (trace st) ++ page_runs key i ns
      ∧ requestCount (getAllIssues_loop server fuel key limit acc
                        (50 * Z.of_nat i) st).2
        = requestCount st + Z.of_nat (length (page_runs key i ns)).
Proof.
  induction fuel as [|fuel IH]; intros i acc st.
  { exists []. cbn. rewrite app_nil_r. repeat split; try done; lia. }
  destruct (searchIssues_shape key (50 * Z.of_nat i) 50 st)
    as (n & ws & Hn & (_ & Hf & _) & Hc & _).
  cbn [getAllIssues_loop].
  destruct (searchIssues server key (50 * Z.of_nat i) 50 st) as [o st1];
    cbn [fst snd] in *.
  assert (Hone : ∃ ns : list nat,
            (length ns ≤ S fuel)%nat ∧ Forall (λ n, 1 ≤ n ≤ 4)%nat ns
            ∧ fetches (trace st1) = fetches (trace st) ++ page_runs key i ns
            ∧ requestCount st1
              = requestCount st + Z.of_nat (length (page_runs key i ns))).
  { exists [n]. cbn [page_runs snd length]. rewrite app_nil_r, length_replicate.
    split; [lia|]. split; [by apply Forall_cons|]. by split. }
  destruct o as [response|]; [|exact Hone].
  destruct (reached limit (acc ++ issues response)); [exact Hone|].
  destruct (if total response <=? 50 * Z.of_nat i + 50 then false
            else 50 * Z.of_nat i + 50 <? total response); [|exact Hone].
  replace (50 * Z.of_nat i + 50) with (50 * Z.of_nat (S i)) by lia.
  destruct (IH (S i) (acc ++ issues response) st1) as (ns & Hl & Hall & Hfs & Hrc).
  exists (n :: ns). cbn [page_runs length].
  split; [lia|]. split; [by apply Forall_cons|].
  rewrite Hfs, Hrc, Hf, Hc, length_app, length_replicate, app_assoc.
  split; [done|lia].
Qed.

(** X17.  The pages are asked for in order, each at most four times.
    Whatever the server does, the requests of [getAllIssues] are for
    the given project with a page size of 50, at the offsets 0, 50,
    100, ... without a gap, each offset at least once and at most four
    times before the next; and the request count grows by the number of
    these requests. *)
Theorem pages_are_requested_in_order (fuel : nat) (key : string) (limit : option Z)
    (st : State) :
  let st' := (getAllIssues server fuel key limit st).2 in
  ∃ ns : list nat,
    (length ns ≤ fuel)%nat
    ∧ Forall (λ n, 1 ≤ n ≤ 4)%nat ns
    ∧ fetches (trace st') = fetches (trace st) ++ page_runs key 0 ns
    ∧ (getStats st').1 = (getStats st).1 + Z.of_nat (length (page_runs key 0 ns)).
Proof. apply (loop_shape key limit fuel 0 [] st). Qed.

(** X18.  A positive cap is never exceeded.  Whatever the server sends,
    the list that [getAllIssues] returns for a limit above 0 has at
    most that many items. *)
Theorem cap_is_never_exceeded (fuel : nat) (key : string) (limit : Z) (st st' : State)
    (l : list JiraIssue) :
  0 < limit →
  getAllIssues server fuel key (Some limit) st = (Some l, st') →
  Z.of_nat (length l) ≤ limit.
Proof.
  intros Hpos. unfold getAllIssues.
  assert (Hacc : Z.of_nat (length (@nil JiraIssue)) < limit) by (cbn; lia).
  revert Hacc. generalize (@nil JiraIssue) 0 st.
  induction fuel as [|fuel IH]; intros acc startAt st0 Hacc; [done|].
  cbn [getAllIssues_loop].
  destruct (searchIssues server key startAt 50 st0) as [[response|] st1].
  - destruct (reached (Some limit) (acc ++ issues response)) eqn:Hr.
    + intros [= <- <-]. unfold slice0. cbn [default].
      destruct (Z.leb_spec 0 limit); [|lia]. rewrite length_take. lia.
    + assert (Z.of_nat (length (acc ++ issues response)) < limit).
      { unfold reached in Hr. destruct (Z.eqb_spec limit 0); [lia|].
        cbn [negb andb] in Hr. lia. }
      destruct (if total response <=? startAt + 50 then false
                else startAt + 50 <? total response).
      * by apply IH.
      * intros [= <- <-]. lia.
  - intros [= <- <-]. lia.
Qed.

(** X19.  The loop ends when the totals are bounded.  On a server that
    never reports a total above [bound], [getAllIssues] returns after
    at most [bound / 50] rounds (and one at least), whatever else the
    server does: with that much fuel the result is a list. *)
Theorem bounded_totals_end_the_loop (bound : Z) (fuel : nat) (key : string)
    (limit : option Z) (st : State) :
  totals_at_most server bound →
  (1 ≤ fuel)%nat → bound ≤ 50 * Z.of_nat fuel →
  ∃ l : list JiraIssue, (getAllIssues server fuel key limit st).1 = Some l.
Proof.
  intros Hbound Hfuel Hb. unfold getAllIssues.
  assert (Hstart : bound - 0 ≤ 50 * Z.of_nat fuel) by lia.
  revert Hfuel Hstart. generalize (@nil JiraIssue) 0 st. clear Hb.
  induction fuel as [|fuel IH]; intros acc startAt st0 Hfuel Hstart; [lia|].
  cbn [getAllIssues_loop].
  destruct (searchIssues_shape key startAt 50 st0) as (_ & _ & _ & _ & _ & Hj).
  destruct (searchIssues server key startAt 50 st0) as [[response|] st1];
    cbn [fst snd] in *; [|by eexists].
  destruct (Hj response eq_refl) as (m & r & Hm & _ & Hjson).
  pose proof (Hbound m _ r response Hm Hjson) as Htotal.
  destruct (reached limit (acc ++ issues response)); [by eexists|].
  destruct (Z.leb_spec (total response) (startAt + 50)); [by eexists|].
  destruct (Z.ltb_spec (startAt + 50) (total response)); [|by eexists].
  apply IH; lia.
Qed.

End Paging.

(** X20.  The pacing of requests.  When the clock has not gone back behind
    the last request, [rateLimit] leaves at least [minDelay = 1000] ms
    between that request and now, marks now as the time of the new
    request and counts it; it waits only if less than [minDelay] had
    passed, and then for what was missing. *)
Theorem rateLimit_keeps_the_distance (st : State) :
  lastRequestTime st ≤ now st →
  let st' := rateLimit st in
  minDelay ≤ now st' - lastRequestTime st
  ∧ lastRequestTime st' = now st'
  ∧ requestCount st' = requestCount st + 1
  ∧ trace st'
    = if now st - lastRequestTime st <? minDelay
      then trace st ++ [Paced (minDelay - (now st - lastRequestTime st))]
      else trace st.
Proof.
  intros Hmono. cbn zeta. unfold rateLimit, minDelay, sleep, timer.
  destruct (Z.ltb_spec (now st - lastRequestTime st) 1000); cbn; [|by repeat split; lia].
  destruct (Z.leb_spec 1 (1000 - (now st - lastRequestTime st))); [|lia].
  destruct (Z.leb_spec (1000 - (now st - lastRequestTime st)) 2147483647); [|lia].
  cbn. repeat split; lia.
Qed.

Lemma returned_response_is_no_error_witness :
  let st' := (fetchWithRetry (always Samples.small_page) sample_url 0 new_client).2 in
  (∃ m : nat,
     (served new_client ≤ m)%nat ∧ served st' = S m
     ∧ reply (always Samples.small_page m sample_url) = Responds Samples.small_page)
  ∧ (status Samples.small_page < 400 ∨ 600 ≤ status Samples.small_page).
Proof.
  apply (returned_response_is_no_error (always Samples.small_page) sample_url new_client
           (fetchWithRetry (always Samples.small_page) sample_url 0 new_client).2).
  by vm_compute.
Defined.

Lemma searchIssues_page_is_from_the_server_witness :
  let st' := (searchIssues (paged_server issues_137) "KAFKA" 50 50 new_client).2 in
  ∃ (m : nat) (r : Response nat),
    (served new_client ≤ m)%nat ∧ served st' = S m
    ∧ reply (paged_server issues_137 m (SearchRequest "KAFKA" 50 50)) = Responds r
    ∧ 200 ≤ status r ≤ 299
    ∧ json r = Some (mkSearchResponse (take 50 (drop 50 issues_137)) 50 50 137).
Proof.
  apply (searchIssues_page_is_from_the_server (paged_server issues_137) "KAFKA" 50 50
           new_client
           (searchIssues (paged_server issues_137) "KAFKA" 50 50 new_client).2).
  by vm_compute.
Defined.

Lemma failures_share_one_budget_witness :
  ∃ (st' : State) (x : Reply nat),
    last Samples.mixed_failures = Some x
    ∧ fetchWithRetry (Samples.replaying Samples.mixed_failures (Throws "")) sample_url 0
        new_client
      = (Rejected (exhausted_by x), st')
    ∧ rounds (Samples.replaying Samples.mixed_failures (Throws "")) sample_url
        [Some 1000; Some 2000; Some 4000; Some 8000] new_client st'.
Proof.
  apply (failures_share_one_budget (Samples.replaying Samples.mixed_failures (Throws ""))
           sample_url new_client Samples.mixed_failures).
  - cbn. repeat split.
  - repeat apply Forall_cons_2; try apply Forall_nil_2; cbn.
    + left. split; [reflexivity|]. exact I.
    + reflexivity.
    + right. unfold is_5xx. cbn. lia.
    + reflexivity.
  - reflexivity.
Defined.

Lemma recovers_when_the_server_does_witness :
  ∃ st1 st' : State,
    rounds
      (Samples.replaying (Samples.two_failures ++ [Responds Samples.small_page]) (Throws ""))
      sample_url [Some 2000; Some 2000] new_client st1
    ∧ requested
        (Samples.replaying (Samples.two_failures ++ [Responds Samples.small_page])
           (Throws ""))
        sample_url st1 st'
    ∧ fetchWithRetry
        (Samples.replaying (Samples.two_failures ++ [Responds Samples.small_page])
           (Throws ""))
        sample_url 0 new_client
      = (Resolved Samples.small_page, st').
Proof.
  apply (recovers_when_the_server_does
           (Samples.replaying (Samples.two_failures ++ [Responds Samples.small_page])
              (Throws ""))
           sample_url new_client Samples.two_failures Samples.small_page).
  - cbn. repeat split.
  - repeat apply Forall_cons_2; try apply Forall_nil_2; cbn.
    + left. split; [reflexivity|]. unfold retry_after_fits_timer. cbn.
      exists 2. split; [reflexivity|lia].
    + reflexivity.
  - cbn. unfold maxRetries. lia.
  - left. cbn. lia.
Defined.

Lemma unmarked_failure_is_not_retried_witness :
  ∃ st' : State,
    fetchWithRetry (unreachable (JiraIssue := nat) "socket hang up") sample_url 0 new_client
    = (Rejected "socket hang up", st')
    ∧ between new_client st' [sample_url] [].
Proof.
  apply (unmarked_failure_is_not_retried (unreachable "socket hang up") sample_url
           new_client "socket hang up"); reflexivity.
Defined.

Lemma retry_after_date_is_no_delay_witness :
  ∃ st' : State,
    fetchWithRetry (always Samples.limited_until_date) sample_url 0 new_client
    = fetchWithRetry (always Samples.limited_until_date) sample_url 1 st'
    ∧ between new_client st' [sample_url] [None]
    ∧ timer None = 1.
Proof.
  apply (retry_after_date_is_no_delay (always Samples.limited_until_date) sample_url 0
           new_client Samples.limited_until_date "W" "ed, 21 Oct 2015 07:28:00 GMT").
  - reflexivity.
  - reflexivity.
  - reflexivity.
  - reflexivity.
  - unfold maxRetries. lia.
Defined.

Lemma cap_is_never_exceeded_witness :
  Z.of_nat (length (take 60 issues_137)) ≤ 60.
Proof.
  apply (cap_is_never_exceeded (paged_server issues_137) 5 "KAFKA" 60 new_client
           (getAllIssues (paged_server issues_137) 5 "KAFKA" (Some 60) new_client).2).
  - lia.
  - by vm_compute.
Defined.

Lemma bounded_totals_end_the_loop_witness :
  ∃ l : list nat,
    (getAllIssues (paged_server issues_137) 3 "KAFKA" None new_client).1 = Some l.
Proof.
  apply (bounded_totals_end_the_loop (paged_server issues_137) 137 3 "KAFKA" None
           new_client).
  - intros n [k a m] r j Hr Hj. cbn in Hr. injection Hr as <-. cbn in Hj.
    injection Hj as <-. cbn. lia.
  - lia.
  - lia.
Defined.

Lemma rateLimit_keeps_the_distance_witness :
  let st' := rateLimit new_client in
  minDelay ≤ now st' - lastRequestTime new_client
  ∧ lastRequestTime st' = now st'
  ∧ requestCount st' = requestCount new_client + 1
  ∧ trace st'
    = if now new_client - lastRequestTime new_client <? minDelay
      then trace new_client
           ++ [Paced (minDelay - (now new_client - lastRequestTime new_client))]
      else trace new_client.
Proof. apply (rateLimit_keeps_the_distance new_client). cbn. lia. Defined.

End ClientExtras.

(** * Properties of the scraper *)

Module ScraperExtras.
Import Ledger Client Scraper LedgerNotions LedgerFacts LedgerExtras.

Section ScrapeProject.

Context {JiraIssue IssueData ProjectInfo : Type}.
Variable key_of : JiraIssue → string.
Variable transformIssue : JiraIssue → option IssueData.
Variable clock : nat → string.
Variable write_ok : nat → bool.

#[local] Abbreviation transform_loop := (transform_loop key_of transformIssue clock write_ok).
#[local] Abbreviation checkpoint_ops := (checkpoint_ops key_of transformIssue).

(** The loop is the run of its checkpoints; what it returns are the
    issues that could be transformed, in their order. *)
Lemma transform_loop_run (key : string) (lastIndex : Z) (todo : list JiraIssue) :
  ∀ (i : Z) (transformed : list IssueData) (s : Sys),
    transform_loop key lastIndex i todo transformed s
    = (transformed ++ omap transformIssue todo,
       run clock write_ok (checkpoint_ops key lastIndex i todo) s).
Proof.
  induction todo as [|issue rest IH]; intros i transformed s; cbn.
  - by rewrite app_nil_r.
  - destruct (transformIssue issue) as [t|]; [|apply IH].
    unfold mbind, M_bind.
    destruct ((i + 1) `mod` 10 =? 0); cbn.
    + unfold exec.
      destruct (updateProgress clock write_ok key (key_of issue) (lastIndex + 1 + i) s)
        as [[] s1]. cbn. by rewrite IH, <- app_assoc.
    + by rewrite IH, <- app_assoc.
Qed.

Lemma checkpoint_ops_no_clear (key : string) (lastIndex : Z) (todo : list JiraIssue) :
  ∀ i : Z, existsb is_clear (checkpoint_ops key lastIndex i todo) = false.
Proof.
  induction todo as [|issue rest IH]; intros i; cbn; [done|].
  destruct (transformIssue issue); [|apply IH].
  destruct ((i + 1) `mod` 10 =? 0); cbn; apply IH.
Qed.

(** Where the checkpoints of a batch fall when every issue can be
    transformed. *)
Lemma checkpoints_of_a_batch (key : string) (lastIndex : Z) (todo : list JiraIssue) :
  Forall (λ x, is_Some (transformIssue x)) todo →
  ∀ (i d : Z), 0 ≤ i →
    let m := Z.of_nat (length todo) in
    last_supplied key (checkpoint_ops key lastIndex i todo) d
    = (if i `div` 10 <? (i + m) `div` 10 then lastIndex + 10 * ((i + m) `div` 10) else d)
    ∧ count_updates key (checkpoint_ops key lastIndex i todo)
      = (i + m) `div` 10 - i `div` 10.
Proof.
  induction todo as [|issue rest IH]; intros Hall i d Hi; cbn zeta.
  - cbn. rewrite Z.add_0_r, Z.ltb_irrefl. split; [done|lia].
  - apply Forall_cons in Hall as [[t Ht] Hall].
    cbn [Scraper.checkpoint_ops length]. rewrite Ht.
    replace (i + Z.of_nat (S (length rest))) with (i + 1 + Z.of_nat (length rest)) by lia.
    set (m := Z.of_nat (length rest)). assert (0 ≤ m) by lia.
    destruct (Z.eqb_spec ((i + 1) `mod` 10) 0) as [Hmod|Hmod].
    + cbn [last_supplied count_updates updates].
      rewrite bool_decide_eq_true_2 by done.
      destruct (IH Hall (i + 1) (lastIndex + 1 + i)) as [-> ->]; [lia|]. fold m.
      destruct (Z.ltb_spec (i `div` 10) ((i + 1 + m) `div` 10)),
               (Z.ltb_spec ((i + 1) `div` 10) ((i + 1 + m) `div` 10));
        split; Z.div_mod_to_equations; lia.
    + destruct (IH Hall (i + 1) d) as [-> ->]; [lia|]. fold m.
      destruct (Z.ltb_spec (i `div` 10) ((i + 1 + m) `div` 10)),
               (Z.ltb_spec ((i + 1) `div` 10) ((i + 1 + m) `div` 10));
        split; Z.div_mod_to_equations; lia.
Qed.

(** Where the checkpoints of a batch can fall at all. *)
Lemma checkpoints_of_any_batch (key : string) (lastIndex : Z) (todo : list JiraIssue) :
  ∀ (i d : Z), 0 ≤ i →
    let m := Z.of_nat (length todo) in
    last_supplied key (checkpoint_ops key lastIndex i todo) d = d
    ∨ ∃ k : Z, i `div` 10 < k ≤ (i + m) `div` 10
               ∧ last_supplied key (checkpoint_ops key lastIndex i todo) d
                 = lastIndex + 10 * k.
Proof.
  induction todo as [|issue rest IH]; intros i d Hi; cbn zeta; [by left|].
  cbn [Scraper.checkpoint_ops length].
  replace (i + Z.of_nat (S (length rest))) with (i + 1 + Z.of_nat (length rest)) by lia.
  set (m := Z.of_nat (length rest)). assert (0 ≤ m) by lia.
  assert (Hskip : ∀ d', d' = d →
            last_supplied key (checkpoint_ops key lastIndex (i + 1) rest) d' = d
            ∨ ∃ k : Z, i `div` 10 < k ≤ (i + 1 + m) `div` 10
                       ∧ last_supplied key (checkpoint_ops key lastIndex (i + 1) rest) d'
                         = lastIndex + 10 * k).
  { intros d' ->. destruct (IH (i + 1) d) as [->|(k & Hk & ->)]; [lia|by left|].
    right. exists k. split; [|done]. fold m in Hk. Z.div_mod_to_equations. lia. }
  destruct (transformIssue issue); [|by apply Hskip].
  destruct (Z.eqb_spec ((i + 1) `mod` 10) 0) as [Hmod|Hmod]; [|by apply Hskip].
  cbn [last_supplied]. rewrite bool_decide_eq_true_2 by done. right.
  destruct (IH (i + 1) (lastIndex + 1 + i)) as [->|(k & Hk & ->)]; [lia|..].
  - exists ((i + 1) `div` 10). split; Z.div_mod_to_equations; lia.
  - exists k. split; [|done]. fold m in Hk. Z.div_mod_to_equations. lia.
Qed.

Lemma checkpoint_ops_target (key other : string) (lastIndex : Z)
    (todo : list JiraIssue) :
  other ≠ key →
  ∀ i : Z,
    existsb (λ op, bool_decide (target op = Some other))
      (checkpoint_ops key lastIndex i todo) = false.
Proof.
  intros Hne. induction todo as [|issue rest IH]; intros i; cbn; [done|].
  destruct (transformIssue issue); [|apply IH].
  destruct ((i + 1) `mod` 10 =? 0); cbn; [|apply IH].
  rewrite IH, orb_false_r. apply bool_decide_eq_false. congruence.
Qed.

Lemma omap_all_some (todo : list JiraIssue) :
  Forall (λ x, is_Some (transformIssue x)) todo →
  length (omap transformIssue todo) = length todo.
Proof.
  induction 1 as [|x l [t Ht] _ IH]; [done|]. cbn. rewrite Ht. cbn. by rewrite IH.
Qed.

(** X21.  Progress is recorded in steps of ten.  When every issue of a
    batch of [n] can be transformed, the loop of [scrapeProject]
    returns them all and calls [updateProgress] after each tenth: with
    fewer than 10 issues the ledger is not touched, and otherwise the
    last index is [lastIndex + 10 * (n / 10)], so that up to nine
    issues at the end are processed without a record; the processed
    count grows by [n / 10], not by [n]. *)
Theorem progress_is_recorded_in_tens (key : string) (lastIndex : Z)
    (todo : list JiraIssue) (s : Sys) :
  Forall (λ x, is_Some (transformIssue x)) todo →
  let n := Z.of_nat (length todo) in
  let result := transform_loop key lastIndex 0 todo [] s in
  length result.1 = length todo
  ∧ eval (getLastIndex key) result.2
    = (if n <? 10 then eval (getLastIndex key) s else lastIndex + 10 * (n `div` 10))
  ∧ processed_of key result.2 = processed_of key s + n `div` 10.
Proof.
  intros Hall. cbn zeta. rewrite transform_loop_run. cbn [fst snd app].
  pose proof (checkpoint_ops_no_clear key lastIndex todo 0) as Hc.
  rewrite run_last_supplied, run_processed by done.
  destruct (checkpoints_of_a_batch key lastIndex todo Hall 0
              (eval (getLastIndex key) s)) as [-> ->]; [lia|].
  rewrite !Z.add_0_l. split; [by apply omap_all_some|].
  change (0 `div` 10) with 0.
  set (n := Z.of_nat (length todo)). assert (0 ≤ n) by lia.
  destruct (Z.ltb_spec 0 (n `div` 10)), (Z.ltb_spec n 10);
    split; try done; Z.div_mod_to_equations; lia.
Qed.

(** X22.  An issue that cannot be transformed is left out and nothing
    else is lost.  The loop returns the issues that could be
    transformed, in their order; it works on the ledger record of its
    project only; and the last index it leaves is the one it found or
    [lastIndex + 10 * k] for a [k] from 1 to [n / 10]: it records
    progress at the tenth, twentieth, ... issue of the batch or not at
    all. *)
Theorem failed_issues_are_skipped (key : string) (lastIndex : Z)
    (todo : list JiraIssue) (s : Sys) :
  let n := Z.of_nat (length todo) in
  let result := transform_loop key lastIndex 0 todo [] s in
  result.1 = omap transformIssue todo
  ∧ (∀ other : string, other ≠ key → record_of other result.2 = record_of other s)
  ∧ (eval (getLastIndex key) result.2 = eval (getLastIndex key) s
     ∨ ∃ k : Z, 1 ≤ k ≤ n `div` 10
                ∧ eval (getLastIndex key) result.2 = lastIndex + 10 * k).
Proof.
  cbn zeta. rewrite transform_loop_run. cbn [fst snd app].
  pose proof (checkpoint_ops_no_clear key lastIndex todo 0) as Hc.
  split; [done|]. split.
  - intros other Hne.
    by apply run_frame; [|apply checkpoint_ops_target].
  - rewrite run_last_supplied by done.
    destruct (checkpoints_of_any_batch key lastIndex todo 0 (eval (getLastIndex key) s))
      as [->|(k & Hk & ->)]; [lia|by left|].
    right. exists k. split; [|done]. rewrite Z.add_0_l in Hk.
    change (0 `div` 10) with 0 in Hk. lia.
Qed.

Variable server : Server JiraIssue.

#[local] Abbreviation scrapeProject :=
  (scrapeProject (ProjectInfo := ProjectInfo) key_of transformIssue clock write_ok server).

(** X23.  A resumed run starts behind the recorded index.  When the
    project lookup has succeeded and [getAllIssues] has returned a list
    that is not empty, [scrapeProject] transforms the issues at the
    positions after the last index of the ledger and none before
    (all of them on a first run, where the index is -1); the index it
    leaves is not below the one it found; and the records of other
    projects are as they were. *)
Theorem scrapeProject_resumes_behind_the_record (fuel : nat) (info : ProjectInfo)
    (key : string) (s : Sys) (st st' : State) (issues : list JiraIssue) :
  -1 ≤ eval (getLastIndex key) s →
  getAllIssues server fuel key MAX_ISSUES_PER_PROJECT st = (Some issues, st') →
  issues ≠ [] →
  ∃ s' : Sys,
    scrapeProject fuel (Some info) key s st
    = (ProjectData info
         (omap transformIssue (drop (Z.to_nat (eval (getLastIndex key) s + 1)) issues)),
       s', st')
    ∧ eval (getLastIndex key) s ≤ eval (getLastIndex key) s'
    ∧ ∀ other : string, other ≠ key → record_of other s' = record_of other s.
Proof.
  intros HL Hget Hne. unfold Scraper.scrapeProject. cbn [ENABLE_CHECKPOINTING].
  rewrite Hget. destruct issues as [|x issues]; [done|]. cbn [length Nat.eqb].
  set (s1 := exec (initProject clock write_ok key) s).
  assert (H1 : eval (getLastIndex key) s1 = eval (getLastIndex key) s).
  { apply (step_getLastIndex clock write_ok key (InitProject key) s eq_refl). }
  rewrite H1. unfold slice_from.
  destruct (Z.leb_spec 0 (eval (getLastIndex key) s + 1)); [|lia].
  rewrite transform_loop_run. cbn [app].
  eexists. split; [done|].
  set (todo := drop (Z.to_nat (eval (getLastIndex key) s + 1)) (x :: issues)).
  pose proof (checkpoint_ops_no_clear key (eval (getLastIndex key) s) todo 0) as Hc.
  split.
  - rewrite run_last_supplied, H1 by done.
    destruct (checkpoints_of_any_batch key (eval (getLastIndex key) s) todo 0
                (eval (getLastIndex key) s)) as [->|(k & Hk & ->)]; [lia|lia|].
    change (0 `div` 10) with 0 in Hk. lia.
  - intros other Hother.
    destruct (run_frame clock write_ok other (checkpoint_ops key (eval (getLastIndex key) s) 0 todo) s1)
      as [-> _]; [done|by apply checkpoint_ops_target|].
    subst s1.
    pose proof (step_record_of clock write_ok other (InitProject key) s eq_refl) as Hi.
    cbn [Ledger.step] in Hi. by rewrite Hi, bool_decide_eq_false_2.
Qed.

End ScrapeProject.

Lemma progress_is_recorded_in_tens_witness :
  let result :=
    Scraper.transform_loop Samples.issue_key Samples.transform_all sample_clock disk_ok
      "KAFKA" 9 0 (drop 10 Samples.twenty_issues) [] Samples.recorded_up_to_9 in
  length result.1 = 10%nat
  ∧ eval (getLastIndex "KAFKA") result.2 = 19
  ∧ processed_of "KAFKA" result.2 = processed_of "KAFKA" Samples.recorded_up_to_9 + 1.
Proof.
  apply (progress_is_recorded_in_tens Samples.issue_key Samples.transform_all
           sample_clock disk_ok "KAFKA" 9 (drop 10 Samples.twenty_issues)
           Samples.recorded_up_to_9).
  repeat apply Forall_cons_2; try apply Forall_nil_2; eexists; reflexivity.
Defined.

Lemma scrapeProject_resumes_behind_the_record_witness :
  ∃ s' : Sys,
    Scraper.scrapeProject Samples.issue_key Samples.transform_all sample_clock disk_ok
      (paged_server Samples.twenty_issues) 1 (Some tt) "KAFKA"
      Samples.recorded_up_to_9 new_client
    = (ProjectData tt (drop 10 Samples.twenty_issues), s',
       (getAllIssues (paged_server Samples.twenty_issues) 1 "KAFKA"
          MAX_ISSUES_PER_PROJECT new_client).2)
    ∧ 9 ≤ eval (getLastIndex "KAFKA") s'
    ∧ ∀ other : string,
        other ≠ "KAFKA"%string →
        record_of other s' = record_of other Samples.recorded_up_to_9.
Proof.
  apply (scrapeProject_resumes_behind_the_record Samples.issue_key Samples.transform_all
           sample_clock disk_ok (paged_server Samples.twenty_issues) 1 tt "KAFKA"
           Samples.recorded_up_to_9 new_client _ Samples.twenty_issues).
  - vm_compute. discriminate.
  - by vm_compute.
  - discriminate.
Defined.

End ScraperExtras.
